(** * The BigQuery agent workflow of [bq_langraph_agent.ipynb]

    A shallow embedding of the notebook's workflow: the conversation state
    and its reducers, the three nodes ([get_schema_node],
    [data_chatbot_node], the [execute_sql] tool node), the router
    [get_state], the tool [execute_query_tool] with the JSON text it
    returns, and the graph that wires them.

    Conventions.
    - A Python [str] is a [string]; its characters are the code points
      0..255, which is all the JSON layer below distinguishes.
    - A call that raises is a [None] (the exception is named in a comment
      at the definition), except in [execute_query_tool], whose [try] is
      modelled by the two constructors of [QueryOutcome], and whose
      client, constructed before the [try], by those of [ClientOutcome].
    - The collaborators (the metadata backend, the query backend and the
      language model) are variables of the section [Workflow]; every
      theorem there holds for all of them.  In the graph they answer, as
      in the interface the notebook uses them through: a collaborator that
      raises aborts the turn and is not an [Outcome] of a run, apart from
      the query backend.  The one such exception the tool itself lets
      through, that of [bigquery.Client()], is modelled at the tool, in
      [execute_query_tool_call].
    - Effects on the collaborators are threaded through a [World].
    - The workflow is stated for any type of cell values and any printing
      of them.  Where the printed rows themselves matter, the cells are
      the Python values of [PyValue] ([None], [bool], [int], [str]) and
      their printing is Python's [repr]; the other types BigQuery can
      return (floats, decimals, dates) are not modelled.
    - The notebook imports its reducer, its tool node, its graph executor
      and its checkpointer from LangGraph.  Their definitions here follow
      the specification's sections 3, 4.4, 4.5 and 4.6 and say so. *)

From Stdlib Require Import Ascii String List Bool Arith NArith ZArith Lia.
From stdpp Require Import gmap strings list.
From stdpp Require Import pretty.
Import ListNotations.

Local Open Scope string_scope.

(** * Part I: the program *)

(** ** Messages *)

(** A tool invocation requested by the model: the [name], [args] and [id]
    entries of a [tool_call]. *)
Record ToolCall := mkToolCall {
  tc_name : string;
  tc_args : list (string * string);
  tc_id : string
}.

(** [langchain_core.messages]: the message classes the workflow handles.
    [tool_calls] is a field of [AIMessage] only. *)
Inductive Message :=
| HumanMessage (content : string)
| AIMessage (content : string) (tool_calls : list ToolCall)
| SystemMessage (content : string)
| ToolMessage (content : string) (name : string) (tool_call_id : string).

(** [isinstance(m, AIMessage)] *)
Definition isinstance_AIMessage (m : Message) : bool :=
  match m with
  | AIMessage _ _ => true
  | _ => false
  end.

(** [m.tool_calls], read only behind the [isinstance] test. *)
Definition tool_calls_of (m : Message) : list ToolCall :=
  match m with
  | AIMessage _ tcs => tcs
  | _ => []
  end.

(** Truth value of a Python list: non-empty. *)
Definition truthy {A} (l : list A) : bool :=
  match l with
  | [] => false
  | _ :: _ => true
  end.

(** ** State *)

(** [class State(TypedDict)]: [messages] and [dataset_schema].  A
    [dataset_schema] that is [None] is the key being absent; no node ever
    stores Python's [None] under it. *)
Record State := mkState {
  messages : list Message;
  dataset_schema : option string
}.

(** ** The router *)

(** [langgraph.graph.END] *)
Definition END : string := "__end__".

(** [get_state].  Indexing an empty [messages] with [-1] raises
    [IndexError]: the [None] here. *)
Definition get_state (state : State) : option string :=
  match last (messages state) with
  | None => None
  | Some last_message =>
      if isinstance_AIMessage last_message && truthy (tool_calls_of last_message) then
        if existsb (fun tool_call => String.eqb (tc_name tool_call) "execute_query_tool")
                   (tool_calls_of last_message)
        then Some "execute_sql"
        else Some END
      else Some END
  end.

(** The message is an assistant message that carries an invocation of the
    query tool. *)
Definition requests_query_tool (m : Message) : Prop :=
  exists content tcs tc,
    m = AIMessage content tcs /\ In tc tcs /\ tc_name tc = "execute_query_tool".

(** The message invokes the terminal tool [SubmitFinalAnswer]. *)
Definition invokes_submit (m : Message) : Prop :=
  exists tc, In tc (tool_calls_of m) /\ tc_name tc = "SubmitFinalAnswer".

(** The router's decision as a function of one message. *)
Definition route_of (m : Message) : string :=
  if isinstance_AIMessage m && truthy (tool_calls_of m) then
    if existsb (fun tool_call => String.eqb (tc_name tool_call) "execute_query_tool")
               (tool_calls_of m)
    then "execute_sql"
    else END
  else END.

(** ** JSON text *)

Definition dquote : ascii := "034"%char.
Definition backslash : ascii := "092"%char.

(** The digits of Python's [x] format. *)
Definition hex_digit (n : N) : ascii :=
  nth (N.to_nat n) (list_ascii_of_string "0123456789abcdef") "0"%char.

(** ['{0:04x}'.format(n)] for [n] below 65536. *)
Definition hex4 (n : N) : string :=
  String (hex_digit (n / 4096 mod 16))
    (String (hex_digit (n / 256 mod 16))
       (String (hex_digit (n / 16 mod 16))
          (String (hex_digit (n mod 16)) ""))).

(** [json.encoder]: what [py_encode_basestring_ascii] writes for one
    character.  [ESCAPE_ASCII] selects the backslash, the double quote and
    every character outside the range from space to tilde; [ESCAPE_DCT]
    gives the short escapes, the rest is written as a [u] escape. *)
Definition escape_char (c : ascii) : string :=
  if Ascii.eqb c dquote then String backslash (String dquote "")
  else if Ascii.eqb c backslash then String backslash (String backslash "")
  else if Ascii.eqb c "010"%char then String backslash "n"
  else if Ascii.eqb c "013"%char then String backslash "r"
  else if Ascii.eqb c "009"%char then String backslash "t"
  else if Ascii.eqb c "008"%char then String backslash "b"
  else if Ascii.eqb c "012"%char then String backslash "f"
  else if (32 <=? N_of_ascii c)%N && (N_of_ascii c <=? 126)%N then String c ""
  else String backslash (String "u"%char (hex4 (N_of_ascii c))).

Fixpoint escape (s : string) : string :=
  match s with
  | EmptyString => ""
  | String c rest => escape_char c +:+ escape rest
  end.

(** [py_encode_basestring_ascii]: the text between two double quotes. *)
Definition encode_basestring_ascii (s : string) : string :=
  String dquote (escape s +:+ String dquote "").

(** The Python values the notebook passes to [json.dumps] in
    [execute_query_tool]: a [str], and a [dict] from [str] to [str]. *)
Inductive PyObj :=
| PyStr (s : string)
| PyDict (items : list (string * string)).

(** [sep.join(l)] *)
Definition join (sep : string) (l : list string) : string :=
  match l with
  | [] => ""
  | x :: xs => fold_left (fun acc y => acc +:+ sep +:+ y) xs x
  end.

Definition dumps_item (kv : string * string) : string :=
  encode_basestring_ascii (fst kv) +:+ ": " +:+ encode_basestring_ascii (snd kv).

(** [json.dumps(o)] with its default separators and [ensure_ascii]. *)
Definition json_dumps (o : PyObj) : string :=
  match o with
  | PyStr s => encode_basestring_ascii s
  | PyDict items => "{" +:+ join ", " (map dumps_item items) +:+ "}"
  end.

(** [json.decoder]: the reading direction, used to say what a payload
    parses to. *)
Definition hex_value (c : ascii) : option N :=
  let n := N_of_ascii c in
  if (48 <=? n)%N && (n <=? 57)%N then Some (n - 48)%N
  else if (97 <=? n)%N && (n <=? 102)%N then Some (n - 87)%N
  else if (65 <=? n)%N && (n <=? 70)%N then Some (n - 55)%N
  else None.

(** [BACKSLASH] of [json.decoder]. *)
Definition unescape (e : ascii) : option ascii :=
  if Ascii.eqb e dquote then Some dquote
  else if Ascii.eqb e backslash then Some backslash
  else if Ascii.eqb e "/"%char then Some "/"%char
  else if Ascii.eqb e "b"%char then Some "008"%char
  else if Ascii.eqb e "f"%char then Some "012"%char
  else if Ascii.eqb e "n"%char then Some "010"%char
  else if Ascii.eqb e "r"%char then Some "013"%char
  else if Ascii.eqb e "t"%char then Some "009"%char
  else None.

Definition decoded (c : ascii) (r : option (string * string)) : option (string * string) :=
  match r with
  | Some (s, rest) => Some (String c s, rest)
  | None => None
  end.

Definition code_point (h1 h2 h3 h4 : ascii) : option N :=
  match hex_value h1, hex_value h2, hex_value h3, hex_value h4 with
  | Some a, Some b, Some c, Some d => Some (a * 4096 + b * 256 + c * 16 + d)%N
  | _, _, _, _ => None
  end.

(** [py_scanstring] in strict mode, from the character after the opening
    quote: the decoded string and the text after the closing quote.  A
    [u] escape above 255 lies outside the characters modelled and gives
    [None], as every malformed text does. *)
Fixpoint scanstring (s : string) : option (string * string) :=
  match s with
  | EmptyString => None
  | String c rest =>
      if Ascii.eqb c dquote then Some ("", rest)
      else if Ascii.eqb c backslash then
        match rest with
        | EmptyString => None
        | String e rest1 =>
            if Ascii.eqb e "u"%char then
              match rest1 with
              | String h1 (String h2 (String h3 (String h4 rest2))) =>
                  match code_point h1 h2 h3 h4 with
                  | Some n =>
                      if (n <? 256)%N then decoded (ascii_of_N n) (scanstring rest2)
                      else None
                  | None => None
                  end
              | _ => None
              end
            else
              match unescape e with
              | Some ch => decoded ch (scanstring rest1)
              | None => None
              end
        end
      else if (N_of_ascii c <? 32)%N then None
      else decoded c (scanstring rest)
  end.

(** [WHITESPACE] of [json.decoder]. *)
Definition is_whitespace (c : ascii) : bool :=
  Ascii.eqb c " "%char || Ascii.eqb c "009"%char
  || Ascii.eqb c "010"%char || Ascii.eqb c "013"%char.

Fixpoint skip_whitespace (s : string) : string :=
  match s with
  | EmptyString => ""
  | String c rest => if is_whitespace c then skip_whitespace rest else s
  end.

(** [JSONObject] from the character after a member's opening quote:
    members with string values, in document order, and the text after the
    closing brace. *)
Fixpoint scan_members (fuel : nat) (s : string) : option (list (string * string) * string) :=
  match fuel with
  | O => None
  | S fuel' =>
      match scanstring s with
      | None => None
      | Some (key, r1) =>
          match skip_whitespace r1 with
          | String c1 r2 =>
              if Ascii.eqb c1 ":"%char then
                match skip_whitespace r2 with
                | String c2 r3 =>
                    if Ascii.eqb c2 dquote then
                      match scanstring r3 with
                      | None => None
                      | Some (value, r4) =>
                          match skip_whitespace r4 with
                          | String c3 r5 =>
                              if Ascii.eqb c3 "}"%char then Some ([(key, value)], r5)
                              else if Ascii.eqb c3 ","%char then
                                match skip_whitespace r5 with
                                | String c4 r6 =>
                                    if Ascii.eqb c4 dquote then
                                      match scan_members fuel' r6 with
                                      | Some (items, r7) => Some ((key, value) :: items, r7)
                                      | None => None
                                      end
                                    else None
                                | EmptyString => None
                                end
                              else None
                          | EmptyString => None
                          end
                      end
                    else None
                | EmptyString => None
                end
              else None
          | EmptyString => None
          end
      end
  end.

(** [json.loads(doc)] on the documents that are a string or an object with
    string values; [None] for a malformed document and for every other
    kind of document.  The decoder chooses by the first character: a double
    quote starts a string, a brace an object. *)
Definition json_loads (doc : string) : option PyObj :=
  match skip_whitespace doc with
  | EmptyString => None
  | String c rest =>
      if Ascii.eqb c dquote then
        match scanstring rest with
        | Some (s, after) =>
            match skip_whitespace after with
            | EmptyString => Some (PyStr s)
            | String _ _ => None
            end
        | None => None
        end
      else if Ascii.eqb c "{"%char then
        match skip_whitespace rest with
        | String c1 r1 =>
            if Ascii.eqb c1 "}"%char then
              match skip_whitespace r1 with
              | EmptyString => Some (PyDict [])
              | String _ _ => None
              end
            else if Ascii.eqb c1 dquote then
              match scan_members (String.length r1) r1 with
              | Some (items, after) =>
                  match skip_whitespace after with
                  | EmptyString => Some (PyDict items)
                  | String _ _ => None
                  end
              | None => None
              end
            else None
        | EmptyString => None
        end
      else None
  end.

(** ** Indented JSON text *)

(** The values [get_schema] dumps: [None], [bool], [str], [list], and
    [dict] with [str] keys, its items in order. *)
#[warnings="-register-all"]
Inductive Json :=
| JNull
| JBool (b : bool)
| JStr (s : string)
| JArr (items : list Json)
| JObj (members : list (string * Json)).

Fixpoint spaces (n : nat) : string :=
  match n with
  | O => ""
  | S n' => String " " (spaces n')
  end.

(** [newline_indent] of [json.encoder] for [indent=2]: a line feed and
    two spaces per level. *)
Definition newline_indent (level : nat) : string :=
  String "010" (spaces (2 * level)).

Definition concat_strings (l : list string) : string :=
  fold_right append "" l.

(** [_iterencode] of [json.encoder] with [indent=2], hence with the item
    separator [,] and the key separator [: ]: an empty list or dict on
    one line, every item of another on a line of its own. *)
Fixpoint encode_indent (level : nat) (v : Json) : string :=
  match v with
  | JNull => "null"
  | JBool true => "true"
  | JBool false => "false"
  | JStr s => encode_basestring_ascii s
  | JArr [] => "[]"
  | JArr (x :: xs) =>
      "[" +:+ newline_indent (S level) +:+ encode_indent (S level) x
        +:+ concat_strings
              (map (fun y => "," +:+ newline_indent (S level) +:+ encode_indent (S level) y) xs)
        +:+ newline_indent level +:+ "]"
  | JObj [] => "{}"
  | JObj (m :: ms) =>
      "{" +:+ newline_indent (S level)
        +:+ encode_basestring_ascii (fst m) +:+ ": " +:+ encode_indent (S level) (snd m)
        +:+ concat_strings
              (map (fun kv => "," +:+ newline_indent (S level)
                                +:+ encode_basestring_ascii (fst kv) +:+ ": "
                                +:+ encode_indent (S level) (snd kv)) ms)
        +:+ newline_indent level +:+ "}"
  end.

(** [json.dumps(v, indent=2)] *)
Definition json_dumps_indent (v : Json) : string := encode_indent 0 v.

(** The text after the prefix [p], when the text starts with it. *)
Fixpoint strip_prefix (p s : string) : option string :=
  match p with
  | EmptyString => Some s
  | String c p' =>
      match s with
      | EmptyString => None
      | String d s' => if Ascii.eqb c d then strip_prefix p' s' else None
      end
  end.

(** [JSONArray] from the first item on, given the decoder of one value:
    the items and the text after the closing bracket. *)
Fixpoint scan_array (scan_value : string -> option (Json * string)) (fuel : nat)
    (s : string) : option (list Json * string) :=
  match fuel with
  | O => None
  | S fuel' =>
      match scan_value s with
      | None => None
      | Some (v, r) =>
          match skip_whitespace r with
          | String c r1 =>
              if Ascii.eqb c "]"%char then Some ([v], r1)
              else if Ascii.eqb c ","%char then
                match scan_array scan_value fuel' (skip_whitespace r1) with
                | Some (vs, r2) => Some (v :: vs, r2)
                | None => None
                end
              else None
          | EmptyString => None
          end
      end
  end.

(** [JSONObject] from the character after the first key's opening quote,
    given the decoder of one value: the members in document order and the
    text after the closing brace. *)
Fixpoint scan_object (scan_value : string -> option (Json * string)) (fuel : nat)
    (s : string) : option (list (string * Json) * string) :=
  match fuel with
  | O => None
  | S fuel' =>
      match scanstring s with
      | None => None
      | Some (key, r1) =>
          match skip_whitespace r1 with
          | String c1 r2 =>
              if Ascii.eqb c1 ":"%char then
                match scan_value (skip_whitespace r2) with
                | None => None
                | Some (v, r3) =>
                    match skip_whitespace r3 with
                    | String c3 r4 =>
                        if Ascii.eqb c3 "}"%char then Some ([(key, v)], r4)
                        else if Ascii.eqb c3 ","%char then
                          match skip_whitespace r4 with
                          | String c4 r5 =>
                              if Ascii.eqb c4 dquote then
                                match scan_object scan_value fuel' r5 with
                                | Some (ms, r6) => Some ((key, v) :: ms, r6)
                                | None => None
                                end
                              else None
                          | EmptyString => None
                          end
                        else None
                    | EmptyString => None
                    end
                end
              else None
          | EmptyString => None
          end
      end
  end.

(** [scan_once] of [json.scanner] on the values above, from the first
    character of a value: the value and the text after it.  Numbers are
    not among the values modelled and give [None], as malformed text
    does. *)
Fixpoint scan_once (fuel : nat) (s : string) : option (Json * string) :=
  match fuel with
  | O => None
  | S fuel' =>
      match s with
      | EmptyString => None
      | String c rest =>
          if Ascii.eqb c dquote then
            match scanstring rest with
            | Some (str, r) => Some (JStr str, r)
            | None => None
            end
          else if Ascii.eqb c "{"%char then
            match skip_whitespace rest with
            | String c1 r1 =>
                if Ascii.eqb c1 "}"%char then Some (JObj [], r1)
                else if Ascii.eqb c1 dquote then
                  match scan_object (scan_once fuel') fuel' r1 with
                  | Some (ms, r) => Some (JObj ms, r)
                  | None => None
                  end
                else None
            | EmptyString => None
            end
          else if Ascii.eqb c "["%char then
            match skip_whitespace rest with
            | String c1 r1 =>
                if Ascii.eqb c1 "]"%char then Some (JArr [], r1)
                else
                  match scan_array (scan_once fuel') fuel' (String c1 r1) with
                  | Some (vs, r) => Some (JArr vs, r)
                  | None => None
                  end
            | EmptyString => None
            end
          else if Ascii.eqb c "n"%char then
            match strip_prefix "null" s with
            | Some r => Some (JNull, r)
            | None => None
            end
          else if Ascii.eqb c "t"%char then
            match strip_prefix "true" s with
            | Some r => Some (JBool true, r)
            | None => None
            end
          else if Ascii.eqb c "f"%char then
            match strip_prefix "false" s with
            | Some r => Some (JBool false, r)
            | None => None
            end
          else None
      end
  end.

(** [json.loads(doc)] on the values above. *)
Definition json_loads_value (doc : string) : option Json :=
  match scan_once (String.length doc) (skip_whitespace doc) with
  | Some (v, after) =>
      match skip_whitespace after with
      | EmptyString => Some v
      | String _ _ => None
      end
  | None => None
  end.

(** The first character of an encoded value. *)
Definition starts_value (c : ascii) : bool :=
  Ascii.eqb c dquote || Ascii.eqb c "{"%char || Ascii.eqb c "["%char
  || Ascii.eqb c "n"%char || Ascii.eqb c "t"%char || Ascii.eqb c "f"%char.

(** What [encode_indent] writes after the first item of a list, and after
    the first member of a dict, up to the closing line. *)
Definition array_tail (level : nat) (xs : list Json) : string :=
  concat_strings
    (map (fun y => "," +:+ newline_indent level +:+ encode_indent level y) xs).

Definition object_tail (level : nat) (ms : list (string * Json)) : string :=
  concat_strings
    (map (fun kv => "," +:+ newline_indent level
                      +:+ encode_basestring_ascii (fst kv) +:+ ": "
                      +:+ encode_indent level (snd kv)) ms).

(** ** The schema text *)

(** An item of [client.list_tables]: [table.project], [table.dataset_id]
    and [table.table_id]. *)
Record TableListItem := mkTableListItem {
  project : string;
  dataset_id : string;
  table_id : string
}.

(** [f"{table.project}.{table.dataset_id}.{table.table_id}"] *)
Definition full_table_id (table : TableListItem) : string :=
  project table +:+ "." +:+ dataset_id table +:+ "." +:+ table_id table.

(** The body of [get_schema] up to the dump: [listing] is what
    [client.list_tables(DATASET_ID)] yields, and [api_repr id] the list of
    [field.to_api_repr()] over the schema of [client.get_table(id)]. *)
Definition get_schema_tables (listing : list TableListItem)
    (api_repr : string -> list Json) : Json :=
  let schemas :=
    map (fun table =>
           let table_id := full_table_id table in
           let schema := api_repr table_id in
           JObj [("table_name", JStr table_id); ("schema", JArr schema)])
        listing in
  JObj [("tables", JArr schemas)].

(** What [get_schema] returns. *)
Definition get_schema_text (listing : list TableListItem)
    (api_repr : string -> list Json) : string :=
  json_dumps_indent (get_schema_tables listing api_repr).


(** The number of values in a value: enough fuel to read it back. *)
Fixpoint json_size (v : Json) : nat :=
  match v with
  | JArr items => S (list_sum (map json_size items))
  | JObj members => S (list_sum (map (fun kv => json_size (snd kv)) members))
  | _ => 1
  end.

(** ** The prompt *)

(** [sys_message.format(schema=schema)] *)
Definition sys_message (schema : string) : string :=
  "You are an expert in answering questions users have about their data stored in BigQuery. Your job is to execute the relevant SQL statements against BigQuery tables to get the best answer. The user is only interested in seeing the final result from BigQuery.

1. If the user request is reasonable and compatible with the schema, YOU MUST FIRST call the `execute_query_tool`to get the result.
    When generating the SQL query:
    Use meaningful aliases for column names.    
    Limit results to 5 rows (unless specified). Order results for clarity.
    Select only necessary columns; avoid SELECT *.
    Use valid BigQuery SQL (no escape characters).
    Use only SELECT statements (no DML).    

2. Call the `execute_query_tool` tool to execute the generated SQL query. If the query fails, analyze the error message and attempt to correct the SQL.  If correction is not possible, inform the user of the error and its likely cause.

3. Only once you have the result from BigQuery, call the `SubmitFinalAnswer` tool to present the final results to the user and terminate the conversation. Do not call any other tools after this.

You will use the following schema for all queries and all SQL must conform to this schema: " +:+ schema +:+ "

**Example:**
If a user asks: 'which is the most expensive item on the menu?' you should:
1. Call the execute_query_tool to execute SQL: 'SELECT menu_name, menu_price as price FROM `dataset_name.choc_ai_test.menu` ORDER BY menu_price DESC LIMIT 1'
2. Only then can you call SubmitFinalAnswer tool to respond to the user with the result of this query in natural language and end the conversation.
3. Once the SubmitFinalAnswer tool has been called, you must ALWAYS end the workflow. Do not call any other tools. 

".

(** ** Python's printed form of a row's values *)

(** [execute_query_tool] returns [str(r)] of the rows, dumped once more:
    what [str] of a list, of a [dict] and [repr] of their entries write
    is part of what the tool returns. *)

Definition squote : ascii := "039"%char.

(** The values of a row's cells: [None], a [bool], an [int] or a [str]. *)
Inductive PyValue :=
| VNone
| VBool (b : bool)
| VInt (z : Z)
| VStr (s : string).

(** [str.isprintable] on one character below 256. *)
Definition is_printable (c : ascii) : bool :=
  let n := N_of_ascii c in
  ((32 <=? n)%N && (n <=? 126)%N) || ((161 <=? n)%N && negb (n =? 173)%N).

(** ['{0:02x}'.format(n)] for [n] below 256. *)
Definition hex2 (n : N) : string :=
  String (hex_digit (n / 16 mod 16)) (String (hex_digit (n mod 16)) "").

(** [c in s] *)
Fixpoint contains (c : ascii) (s : string) : bool :=
  match s with
  | EmptyString => false
  | String c' rest => Ascii.eqb c c' || contains c rest
  end.

(** [repr] of a [str] chooses its quote: the double quote when the string
    holds a single quote and no double quote, the single quote otherwise. *)
Definition repr_quote (s : string) : ascii :=
  if contains squote s && negb (contains dquote s) then dquote else squote.

(** What [repr] writes for one character of a [str]. *)
Definition repr_char (quote c : ascii) : string :=
  if Ascii.eqb c quote || Ascii.eqb c backslash then String backslash (String c "")
  else if Ascii.eqb c "009"%char then String backslash "t"
  else if Ascii.eqb c "010"%char then String backslash "n"
  else if Ascii.eqb c "013"%char then String backslash "r"
  else if is_printable c then String c ""
  else String backslash (String "x"%char (hex2 (N_of_ascii c))).

Fixpoint repr_chars (quote : ascii) (s : string) : string :=
  match s with
  | EmptyString => ""
  | String c rest => repr_char quote c +:+ repr_chars quote rest
  end.

(** [repr(s)] of a [str]. *)
Definition repr_str (s : string) : string :=
  let quote := repr_quote s in
  String quote (repr_chars quote s +:+ String quote "").

(** [repr(v)] of a cell. *)
Definition repr_value (v : PyValue) : string :=
  match v with
  | VNone => "None"
  | VBool true => "True"
  | VBool false => "False"
  | VInt z => pretty z
  | VStr s => repr_str s
  end.

(** ** Reading Python's printed form *)

(** The reading direction, Python's own reading of these literals, used
    to say which rows a printed form stands for. *)

(** The escapes of a string literal with one character after the
    backslash. *)
Definition read_escape (e : ascii) : option ascii :=
  if Ascii.eqb e backslash then Some backslash
  else if Ascii.eqb e squote then Some squote
  else if Ascii.eqb e dquote then Some dquote
  else if Ascii.eqb e "a"%char then Some "007"%char
  else if Ascii.eqb e "b"%char then Some "008"%char
  else if Ascii.eqb e "f"%char then Some "012"%char
  else if Ascii.eqb e "n"%char then Some "010"%char
  else if Ascii.eqb e "r"%char then Some "013"%char
  else if Ascii.eqb e "t"%char then Some "009"%char
  else if Ascii.eqb e "v"%char then Some "011"%char
  else None.

(** A string literal from the character after its opening quote: the
    string it denotes and the text after the closing quote. *)
Fixpoint read_str_body (quote : ascii) (s : string) : option (string * string) :=
  match s with
  | EmptyString => None
  | String c rest =>
      if Ascii.eqb c quote then Some ("", rest)
      else if Ascii.eqb c backslash then
        match rest with
        | EmptyString => None
        | String e rest1 =>
            if Ascii.eqb e "x"%char then
              match rest1 with
              | String h1 (String h2 rest2) =>
                  match hex_value h1, hex_value h2 with
                  | Some a, Some b =>
                      decoded (ascii_of_N (a * 16 + b)) (read_str_body quote rest2)
                  | _, _ => None
                  end
              | _ => None
              end
            else
              match read_escape e with
              | Some ch => decoded ch (read_str_body quote rest1)
              | None => None
              end
        end
      else if Ascii.eqb c "010"%char || Ascii.eqb c "013"%char then None
      else decoded c (read_str_body quote rest)
  end.

(** A string literal in single or in double quotes. *)
Definition read_str (s : string) : option (string * string) :=
  match s with
  | EmptyString => None
  | String quote rest =>
      if Ascii.eqb quote squote || Ascii.eqb quote dquote then read_str_body quote rest
      else None
  end.

Definition digit_value (c : ascii) : option N :=
  let n := N_of_ascii c in
  if (48 <=? n)%N && (n <=? 57)%N then Some (n - 48)%N else None.

(** The decimal digits at the head of a text, read from the left. *)
Fixpoint read_digits (s : string) (acc : N) : N * string :=
  match s with
  | EmptyString => (acc, "")
  | String c rest =>
      match digit_value c with
      | Some d => read_digits rest (acc * 10 + d)
      | None => (acc, s)
      end
  end.

(** An integer literal, with its sign. *)
Definition read_int (s : string) : option (Z * string) :=
  match s with
  | EmptyString => None
  | String c rest =>
      if Ascii.eqb c "-"%char then
        match rest with
        | EmptyString => None
        | String c1 _ =>
            match digit_value c1 with
            | Some _ => let '(n, r) := read_digits rest 0 in Some (Z.opp (Z.of_N n), r)
            | None => None
            end
        end
      else
        match digit_value c with
        | Some _ => let '(n, r) := read_digits s 0 in Some (Z.of_N n, r)
        | None => None
        end
  end.

(** A cell: [None], [True], [False], a string literal or an integer. *)
Definition read_value (s : string) : option (PyValue * string) :=
  match s with
  | EmptyString => None
  | String c _ =>
      if Ascii.eqb c "N"%char then
        match strip_prefix "None" s with
        | Some rest => Some (VNone, rest)
        | None => None
        end
      else if Ascii.eqb c "T"%char then
        match strip_prefix "True" s with
        | Some rest => Some (VBool true, rest)
        | None => None
        end
      else if Ascii.eqb c "F"%char then
        match strip_prefix "False" s with
        | Some rest => Some (VBool false, rest)
        | None => None
        end
      else if Ascii.eqb c squote || Ascii.eqb c dquote then
        match read_str s with
        | Some (text, rest) => Some (VStr text, rest)
        | None => None
        end
      else
        match read_int s with
        | Some (z, rest) => Some (VInt z, rest)
        | None => None
        end
  end.

(** An item of a dict display: the key, a colon and a space, the value. *)
Definition read_item (s : string) : option ((string * PyValue) * string) :=
  match read_str s with
  | None => None
  | Some (key, r1) =>
      match strip_prefix ": " r1 with
      | None => None
      | Some r2 =>
          match read_value r2 with
          | Some (v, r3) => Some ((key, v), r3)
          | None => None
          end
      end
  end.

(** The items after the first, each behind a comma and a space, up to the
    closing brace. *)
Fixpoint read_items_tail (fuel : nat) (s : string)
    : option (list (string * PyValue) * string) :=
  match fuel with
  | O => None
  | S fuel' =>
      match s with
      | EmptyString => None
      | String c rest =>
          if Ascii.eqb c "}"%char then Some ([], rest)
          else
            match strip_prefix ", " s with
            | None => None
            | Some r1 =>
                match read_item r1 with
                | None => None
                | Some (kv, r2) =>
                    match read_items_tail fuel' r2 with
                    | Some (items, r3) => Some (kv :: items, r3)
                    | None => None
                    end
                end
            end
      end
  end.

(** A dict display. *)
Definition read_dict (fuel : nat) (s : string)
    : option (list (string * PyValue) * string) :=
  match s with
  | EmptyString => None
  | String c rest =>
      if Ascii.eqb c "{"%char then
        match rest with
        | EmptyString => None
        | String c1 rest1 =>
            if Ascii.eqb c1 "}"%char then Some ([], rest1)
            else
              match read_item rest with
              | None => None
              | Some (kv, r1) =>
                  match read_items_tail fuel r1 with
                  | Some (items, r2) => Some (kv :: items, r2)
                  | None => None
                  end
              end
        end
      else None
  end.

(** The dicts after the first, each behind a comma and a space, up to the
    closing bracket. *)
Fixpoint read_rows_tail (fuel : nat) (s : string)
    : option (list (list (string * PyValue)) * string) :=
  match fuel with
  | O => None
  | S fuel' =>
      match s with
      | EmptyString => None
      | String c rest =>
          if Ascii.eqb c "]"%char then Some ([], rest)
          else
            match strip_prefix ", " s with
            | None => None
            | Some r1 =>
                match read_dict fuel' r1 with
                | None => None
                | Some (d, r2) =>
                    match read_rows_tail fuel' r2 with
                    | Some (ds, r3) => Some (d :: ds, r3)
                    | None => None
                    end
                end
            end
      end
  end.

(** Python's reading of the printed form of a list of rows (what
    [ast.literal_eval] gives for it): the rows, or [None] for a text that
    is not a list display of dict displays with string keys and cells of
    the kinds above, in Python's own spacing. *)
Definition read_rows (s : string) : option (list (list (string * PyValue))) :=
  match s with
  | EmptyString => None
  | String c rest =>
      if Ascii.eqb c "["%char then
        match rest with
        | EmptyString => None
        | String c1 rest1 =>
            if Ascii.eqb c1 "]"%char then
              match rest1 with
              | EmptyString => Some []
              | String _ _ => None
              end
            else
              match read_dict (String.length s) rest with
              | None => None
              | Some (d, r1) =>
                  match read_rows_tail (String.length s) r1 with
                  | Some (ds, EmptyString) => Some (d :: ds)
                  | _ => None
                  end
              end
        end
      else None
  end.

(** ** Digits and separators, for the statements about the printed form *)

Definition is_digit (c : ascii) : bool :=
  match digit_value c with
  | Some _ => true
  | None => false
  end.

Fixpoint all_digits (s : string) : bool :=
  match s with
  | EmptyString => true
  | String c rest => is_digit c && all_digits rest
  end.

(** The number a string of digits denotes, after the digits read so far. *)
Fixpoint digits_value (s : string) (acc : N) : N :=
  match s with
  | EmptyString => acc
  | String c rest =>
      digits_value rest (acc * 10 + match digit_value c with Some d => d | None => 0 end)
  end.

Definition starts_with_digit (s : string) : bool :=
  match s with
  | EmptyString => false
  | String c _ => is_digit c
  end.

(** What [sep.join] writes after its first item. *)
Fixpoint join_tail (sep : string) (l : list string) : string :=
  match l with
  | [] => ""
  | y :: ys => sep +:+ y +:+ join_tail sep ys
  end.

(** An item of a row as [str] of a [dict] prints it. *)
Definition item_text (kv : string * PyValue) : string :=
  repr_str (fst kv) +:+ ": " +:+ repr_value (snd kv).

(** ** Collaborators and their effects *)

(** What [client.query_and_wait(query)] followed by the iteration over its
    rows does: it yields the rows, each as the items of [dict(row)], or it
    raises an exception whose [str] is [e]. *)
Inductive QueryOutcome (Cell : Type) :=
| RowsReturned (rows : list (list (string * Cell)))
| QueryRaised (e : string).
Arguments RowsReturned {Cell} rows.
Arguments QueryRaised {Cell} e.

(** The calls issued to the collaborators so far. *)
Record World := mkWorld {
  metadata_calls : nat;
  queries_run : list string;
  llm_calls : nat
}.

(** What [bigquery.Client()] does: the client is built, or the constructor
    raises (no credentials, no project), with the exception's text. *)
Inductive ClientOutcome :=
| ClientBuilt
| ClientRaised (e : string).

(** What a call of a tool does: it returns its text, or an exception
    leaves it; either way with the calls issued by then. *)
Inductive ToolOutcome :=
| ToolReturned (text : string) (w : World)
| ToolRaised (e : string) (w : World).

(** ** Graph vocabulary *)

(** The nodes added by [workflow.add_node]. *)
Inductive Node := N_get_schema | N_data_chatbot | N_execute_sql.

Definition node_name (n : Node) : string :=
  match n with
  | N_get_schema => "get_schema"
  | N_data_chatbot => "data_chatbot"
  | N_execute_sql => "execute_sql"
  end.

(** Where an edge leads: a node, or the end of the run. *)
Inductive Target := Goto (n : Node) | Finish.

(** A node's return value: the keys it sets. *)
Record Update := mkUpdate {
  upd_dataset_schema : option string;
  upd_messages : option (list Message)
}.

(** How a run stops.  [NodeRaised] is a [KeyError] or [IndexError] of a
    node or of the router. *)
Inductive Outcome := Done | RecursionLimitExceeded | NodeRaised.

(** A run: how it stopped, the nodes executed in order, each with the
    state checkpointed after it, the state the checkpointer holds at the
    end, and the world. *)
Record Run := mkRun {
  outcome : Outcome;
  steps : list (Node * State);
  final_state : State;
  world_after : World
}.

(** [config]: the thread and the step budget. *)
Record Config := mkConfig {
  thread_id : string;
  recursion_limit : nat
}.

Definition config : Config := {| thread_id := "101"; recursion_limit := 20 |}.

(** ** Stub collaborators *)

Definition query_call (sql id : string) : ToolCall :=
  mkToolCall "execute_query_tool" [("query", sql)] id.

Definition submit_call (answer id : string) : ToolCall :=
  mkToolCall "SubmitFinalAnswer" [("final_answer", answer)] id.

Definition stub_schema (n : nat) : string := "tables: menu".

Definition stub_rows (n : nat) (query : string) : QueryOutcome string :=
  RowsReturned [[("price", "12")]].

Definition stub_failing (n : nat) (query : string) : QueryOutcome string :=
  QueryRaised "column not found".

(** A query backend that answers with two rows of the menu, one of them
    with a name that holds a single quote and with an empty price. *)
Definition menu_rows : list (list (string * PyValue)) :=
  [[("menu_name", VStr "Truffle"); ("price", VInt 12)];
   [("menu_name", VStr "Baker's"); ("price", VNone); ("ok", VBool true);
    ("n", VInt (-5))]].

Definition stub_menu (n : nat) (query : string) : QueryOutcome PyValue :=
  RowsReturned menu_rows.

(** Rows whose strings need every escape of [repr] and of [json.dumps]. *)
Definition escaped_rows : list (list (string * PyValue)) :=
  [[("note", VStr ("tab" +:+ String "009"%char "here"));
    ("path", VStr ("C:" +:+ String backslash "dir"));
    ("mix", VStr ("it's " +:+ String dquote ("ok" +:+ String dquote "")));
    ("quote", VStr (String dquote ""));
    ("uni", VStr ("caf" +:+ String "233"%char (String "173"%char (String "127"%char
                    (String "128"%char (String "160"%char (String "161"%char
                    (String "255"%char ""))))))));
    ("ctl", VStr ("a" +:+ String "010"%char ("b" +:+ String "013"%char ("c" +:+
                    String "000"%char (String "031"%char "")))));
    ("flag", VBool false);
    ("zero", VInt (0));
    ("big", VInt (-1234567890123))]].

Definition stub_escaped (n : nat) (query : string) : QueryOutcome PyValue :=
  RowsReturned escaped_rows.

(** What Python prints for [str(menu_rows)]. *)
Definition menu_rows_printed : string :=
  "[{'menu_name': 'Truffle', 'price': 12}, {'menu_name': " +:+ String dquote ("Baker's"
    +:+ String dquote ", 'price': None, 'ok': True, 'n': -5}]").

(** What Python prints for [json.dumps(str(menu_rows))]. *)
Definition menu_rows_payload : string :=
  String dquote ("[{'menu_name': 'Truffle', 'price': 12}, {'menu_name': " +:+ String
    backslash (String dquote ("Baker's" +:+ String backslash (String dquote
    (", 'price': None, 'ok': True, 'n': -5}]" +:+ String dquote ""))))).

(** What Python prints for [str(escaped_rows)]. *)
Definition escaped_rows_printed : string :=
  "[{'note': 'tab" +:+ String backslash ("there', 'path': 'C:" +:+ String backslash
    (String backslash ("dir', 'mix': 'it" +:+ String backslash ("'s " +:+ String dquote
    ("ok" +:+ String dquote ("', 'quote': '" +:+ String dquote ("', 'uni': 'caf" +:+
    String "233"%char (String backslash ("xad" +:+ String backslash ("x7f" +:+ String
    backslash ("x80" +:+ String backslash ("xa0" +:+ String "161"%char (String
    "255"%char ("', 'ctl': 'a" +:+ String backslash ("nb" +:+ String backslash ("rc" +:+
    String backslash ("x00" +:+ String backslash
    "x1f', 'flag': False, 'zero': 0, 'big': -1234567890123}]"))))))))))))))))).

(** What Python prints for [json.dumps(str(escaped_rows))]. *)
Definition escaped_rows_payload : string :=
  String dquote ("[{'note': 'tab" +:+ String backslash (String backslash
    ("there', 'path': 'C:" +:+ String backslash (String backslash (String backslash
    (String backslash ("dir', 'mix': 'it" +:+ String backslash (String backslash ("'s "
    +:+ String backslash (String dquote ("ok" +:+ String backslash (String dquote
    ("', 'quote': '" +:+ String backslash (String dquote ("', 'uni': 'caf" +:+ String
    backslash ("u00e9" +:+ String backslash (String backslash ("xad" +:+ String
    backslash (String backslash ("x7f" +:+ String backslash (String backslash ("x80" +:+
    String backslash (String backslash ("xa0" +:+ String backslash ("u00a1" +:+ String
    backslash ("u00ff', 'ctl': 'a" +:+ String backslash (String backslash ("nb" +:+
    String backslash (String backslash ("rc" +:+ String backslash (String backslash
    ("x00" +:+ String backslash (String backslash
    ("x1f', 'flag': False, 'zero': 0, 'big': -1234567890123}]" +:+ String dquote
    "")))))))))))))))))))))))))))))))))).

Definition stub_client (n : nat) : ClientOutcome := ClientBuilt.

(** An environment without credentials. *)
Definition stub_client_fails (n : nat) : ClientOutcome :=
  ClientRaised "DefaultCredentialsError".

Definition stub_repr (s : string) : string := s.

Definition stub_invalid (tc : ToolCall) : string := "invalid tool input".

(** A model that always requests the query tool. *)
Definition stub_llm_query (n : nat) (prompt : list Message) : Message :=
  AIMessage "" [query_call "SELECT 1" "call"].

(** A model that answers in plain text. *)
Definition stub_llm_text (n : nat) (prompt : list Message) : Message :=
  AIMessage "The most expensive item costs 12." [].

(** A model that submits its final answer at once. *)
Definition stub_llm_submit (n : nat) (prompt : list Message) : Message :=
  AIMessage "" [submit_call "12" "call"].

(** A model whose first message invokes [SubmitFinalAnswer] together with
    the query tool, and that answers in plain text afterwards. *)
Definition stub_llm_both (n : nat) (prompt : list Message) : Message :=
  match n with
  | O => AIMessage "" [submit_call "12" "call_a"; query_call "SELECT 1" "call_b"]
  | S _ => AIMessage "done" []
  end.

Definition world0 : World := mkWorld 0 [] 0.

(** A metadata backend with one table of two columns, and the text
    [get_schema] returns for it. *)
Definition stub_listing : list TableListItem :=
  [mkTableListItem "[your-project-id]" "choc_ai_test" "menu"].

Definition stub_api_repr (table_id : string) : list Json :=
  [JObj [("name", JStr "menu_name"); ("type", JStr "STRING"); ("mode", JStr "NULLABLE")];
   JObj [("name", JStr "menu_price"); ("type", JStr "FLOAT"); ("mode", JStr "NULLABLE")]].

Definition stub_schema_text (n : nat) : string :=
  get_schema_text stub_listing stub_api_repr.

(** A conversation whose last message requests the query tool. *)
Definition state_query : State :=
  mkState [HumanMessage "which is the most expensive item on the menu?";
           AIMessage "" [query_call "SELECT 1" "call"]] None.

(** The same last message after another history and with a cached schema. *)
Definition state_query_other : State :=
  mkState [AIMessage "" [query_call "SELECT 1" "call"]] (Some "tables: menu").

(** A conversation whose last message submits the final answer. *)
Definition state_submit : State :=
  mkState [HumanMessage "which is the most expensive item on the menu?";
           AIMessage "" [submit_call "12" "call"]] (Some "tables: menu").

(** A conversation whose last message invokes [SubmitFinalAnswer] and the
    query tool together. *)
Definition message_submit_and_query : Message :=
  AIMessage "" [submit_call "12" "call_a"; query_call "SELECT 1" "call_b"].

Definition state_submit_and_query : State :=
  mkState [HumanMessage "which is the most expensive item on the menu?";
           message_submit_and_query] (Some "tables: menu").

(** ** The workflow *)

Section Workflow.

(** The values BigQuery returns in a row, and how Python prints them:
    [repr] of a cell value and [repr] of a column name.  For the cells
    of [PyValue] these are [repr_value] and [repr_str]. *)
Variable Cell : Type.
Variable py_repr : Cell -> string.
Variable py_repr_str : string -> string.

(** The metadata backend: what the body of [get_schema] (listing the
    dataset's tables and dumping their schemas) returns on its [n]-th
    call. *)
Variable list_tables_schema : nat -> string.

(** The query backend, by the number of queries run before. *)
Variable query_and_wait : nat -> string -> QueryOutcome Cell.

(** The model with its tools bound: [data_llm_with_tools.invoke], by the
    number of calls made before. *)
Variable llm_invoke : nat -> list Message -> Message.

(** What the tool node reports for an invocation whose arguments do not
    fit the tool's signature. *)
Variable invalid_input_text : ToolCall -> string.

(** [get_schema()]: one metadata call. *)
Definition get_schema (w : World) : string * World :=
  (list_tables_schema (metadata_calls w),
   mkWorld (S (metadata_calls w)) (queries_run w) (llm_calls w)).

(** [str(d)] of a row's [dict]. *)
Definition str_dict (d : list (string * Cell)) : string :=
  "{" +:+ join ", " (map (fun kv => py_repr_str (fst kv) +:+ ": " +:+ py_repr (snd kv)) d) +:+ "}".

(** [str(r)] of the list of rows. *)
Definition str_rows (r : list (list (string * Cell))) : string :=
  "[" +:+ join ", " (map str_dict r) +:+ "]".

(** [str(s)] of a [str]. *)
Definition str (s : string) : string := s.

(** [execute_query_tool] from its [try] on, with the client of the line
    before it built.  The [try] covers the query, the iteration over its
    rows and the dump of the result; [execute_query_tool_call] below is
    the function from its first line. *)
Definition execute_query_tool (query : string) (w : World) : string * World :=
  let w' := mkWorld (metadata_calls w) (queries_run w ++ [query]) (llm_calls w) in
  match query_and_wait (length (queries_run w)) query with
  | RowsReturned result =>
      let r := result in
      (str (json_dumps (PyStr (str_rows r))), w')
  | QueryRaised e =>
      let error_message := "BigQuery Error: " +:+ e in
      (json_dumps (PyDict [("BigQuery error", error_message)]), w')
  end.

(** The constructor of the client in [execute_query_tool], by the number
    of queries run before. *)
Variable bigquery_Client : nat -> ClientOutcome.

(** A call of [execute_query_tool], from its first line.  The client is
    constructed before the [try]: what the constructor raises leaves the
    tool, and the query is not sent.  With the client built the [try]
    runs, and whatever the query raises is caught there. *)
Definition execute_query_tool_call (query : string) (w : World) : ToolOutcome :=
  match bigquery_Client (length (queries_run w)) with
  | ClientRaised e => ToolRaised e w
  | ClientBuilt =>
      let '(text, w') := execute_query_tool query w in
      ToolReturned text w'
  end.

(** [get_schema_node] *)
Definition get_schema_node (state : State) (w : World) : Update * World :=
  match dataset_schema state with
  | None =>
      let '(schema, w') := get_schema w in
      ({| upd_dataset_schema := Some schema;
          upd_messages := Some [AIMessage "Schema retrieved from BigQuery" []] |}, w')
  | Some _ =>
      ({| upd_dataset_schema := None;
          upd_messages := Some [AIMessage "Schema retrieved from memory" []] |}, w)
  end.

(** [data_chatbot_node].  Reading [dataset_schema] from a state without
    the key raises [KeyError]: the [None] here. *)
Definition data_chatbot_node (state : State) (w : World) : option (Update * World) :=
  match dataset_schema state with
  | None => None
  | Some schema =>
      let messages := SystemMessage (sys_message schema) :: messages state in
      let response := llm_invoke (llm_calls w) messages in
      Some ({| upd_dataset_schema := None; upd_messages := Some [response] |},
            mkWorld (metadata_calls w) (queries_run w) (S (llm_calls w)))
  end.

(** The tools of the tool node, by name: [ToolNode([execute_query_tool])].
    A tool takes the invocation and returns the text of its result. *)
Definition Tool : Type := ToolCall -> World -> string * World.

Definition execute_query_tool_entry : Tool :=
  fun tc w =>
    match List.find (fun kv => String.eqb (fst kv) "query") (tc_args tc) with
    | Some kv => execute_query_tool (snd kv) w
    | None => (invalid_input_text tc, w)
    end.

Definition tools_by_name : list (string * Tool) :=
  [("execute_query_tool", execute_query_tool_entry)].

Definition find_tool (name : string) : option Tool :=
  snd <$> List.find (fun entry => String.eqb (fst entry) name) tools_by_name.

(** Modelled from the spec: the tool node (LangGraph's [ToolNode], section
    4.4).  For each invocation of the last message that names a registered
    tool, in order, the tool runs and one [ToolMessage] carries its result,
    correlated by the invocation's id. *)
Fixpoint run_tool_calls (tcs : list ToolCall) (w : World) : list Message * World :=
  match tcs with
  | [] => ([], w)
  | tc :: rest =>
      match find_tool (tc_name tc) with
      | Some tool =>
          let '(text, w1) := tool tc w in
          let '(msgs, w2) := run_tool_calls rest w1 in
          (ToolMessage text (tc_name tc) (tc_id tc) :: msgs, w2)
      | None => run_tool_calls rest w
      end
  end.

(** Modelled from the spec: the tool node's update (section 4.4), the
    tool messages for the invocations of the last message. *)
Definition tool_node (state : State) (w : World) : Update * World :=
  let tcs := match last (messages state) with
             | Some last_message => tool_calls_of last_message
             | None => []
             end in
  let '(msgs, w') := run_tool_calls tcs w in
  ({| upd_dataset_schema := None; upd_messages := Some msgs |}, w').

(** Modelled from the spec: the reducer of [messages] (LangGraph's
    [add_messages], section 3): new messages are merged by concatenation,
    never by overwrite.  Messages carry no identifier here; the notebook
    sets none. *)
Definition add_messages (left right : list Message) : list Message :=
  left ++ right.

(** Modelled from the spec: the state merge rule (section 3).  [messages]
    goes through its reducer, [dataset_schema] is overwritten, and a key
    the update does not set keeps its value. *)
Definition apply_update (state : State) (u : Update) : State :=
  {| messages := match upd_messages u with
                 | Some new => add_messages (messages state) new
                 | None => messages state
                 end;
     dataset_schema := match upd_dataset_schema u with
                       | Some schema => Some schema
                       | None => dataset_schema state
                       end |}.

(** The function [workflow.add_node] attaches to each node. *)
Definition exec_node (n : Node) (state : State) (w : World) : option (Update * World) :=
  match n with
  | N_get_schema => Some (get_schema_node state w)
  | N_data_chatbot => data_chatbot_node state w
  | N_execute_sql => Some (tool_node state w)
  end.

(** [workflow.add_edge(START, "get_schema")] *)
Definition entry_point : Node := N_get_schema.

(** The path list of [add_conditional_edges]: ["execute_sql"] and [END]. *)
Definition path_target (route : string) : option Target :=
  if String.eqb route (node_name N_execute_sql) then Some (Goto N_execute_sql)
  else if String.eqb route END then Some Finish
  else None.

(** The edges of [workflow]: after a node has run and its update is
    merged, where control goes. *)
Definition next_target (n : Node) (state : State) : option Target :=
  match n with
  | N_get_schema => Some (Goto N_data_chatbot)
  | N_data_chatbot =>
      match get_state state with
      | Some route => path_target route
      | None => None
      end
  | N_execute_sql => Some (Goto N_data_chatbot)
  end.

(** Modelled from the spec: the executor (LangGraph's compiled graph,
    section 4.5).  Each node execution takes one unit of the step budget;
    its update is merged and the state checkpointed before the edge is
    followed.  With the budget used up the run fails with
    [RecursionLimitExceeded] and the state stays as last checkpointed. *)
Fixpoint run_from (budget : nat) (n : Node) (state : State) (w : World) : Run :=
  match budget with
  | O => mkRun RecursionLimitExceeded [] state w
  | S budget' =>
      match exec_node n state w with
      | None => mkRun NodeRaised [] state w
      | Some (u, w') =>
          let state' := apply_update state u in
          match next_target n state' with
          | None => mkRun NodeRaised [(n, state')] state' w'
          | Some Finish => mkRun Done [(n, state')] state' w'
          | Some (Goto n') =>
              let r := run_from budget' n' state' w' in
              mkRun (outcome r) ((n, state') :: steps r) (final_state r) (world_after r)
          end
      end
  end.

(** Modelled from the spec: what the checkpointer holds for the thread
    (section 4.6), a new thread starting from the empty state. *)
Definition loaded_state (cfg : Config) (memory : gmap string State) : State :=
  default (mkState [] None) (memory !! thread_id cfg).

(** Modelled from the spec: the input merged into the loaded state by the
    merge rule. *)
Definition input_state (cfg : Config) (input : list Message)
    (memory : gmap string State) : State :=
  apply_update (loaded_state cfg memory)
    {| upd_dataset_schema := None; upd_messages := Some input |}.

(** Modelled from the spec: one invocation of the compiled graph with a
    checkpointer (sections 4.5 and 4.6).  The run starts at the entry
    point from the thread's state with the input merged; the thread's
    checkpoint becomes the state after the last completed step. *)
Definition stream (cfg : Config) (input : list Message)
    (memory : gmap string State) (w : World) : Run * gmap string State :=
  let r := run_from (recursion_limit cfg) entry_point (input_state cfg input memory) w in
  (r, <[thread_id cfg := final_state r]> memory).

(** The notebook's input loop: one [stream] per user message, all under
    the same [config], until the user quits.  No [try] surrounds the call
    of [stream]: a run that stops on an exception ([GraphRecursionError]
    once the step budget is used up) leaves the loop with that exception,
    and the inputs after it are never read.  The result is the
    checkpointer's content and the world when the loop is left. *)
Fixpoint chat_loop (cfg : Config) (users : list string)
    (memory : gmap string State) (w : World) : gmap string State * World :=
  match users with
  | [] => (memory, w)
  | user :: rest =>
      if String.eqb user "q" || String.eqb user "Q" then (memory, w)
      else
        let '(r, memory') := stream cfg [HumanMessage user] memory w in
        match outcome r with
        | Done => chat_loop cfg rest memory' (world_after r)
        | _ => (memory', world_after r)
        end
  end.

(** How the input loop is left: [Done] by the [break] (or with the inputs
    used up), otherwise with the exception of the run that raised. *)
Fixpoint chat_loop_outcome (cfg : Config) (users : list string)
    (memory : gmap string State) (w : World) : Outcome :=
  match users with
  | [] => Done
  | user :: rest =>
      if String.eqb user "q" || String.eqb user "Q" then Done
      else
        let '(r, memory') := stream cfg [HumanMessage user] memory w in
        match outcome r with
        | Done => chat_loop_outcome cfg rest memory' (world_after r)
        | o => o
        end
  end.

(** The schema a thread has cached in its checkpoint. *)
Definition cached_schema (cfg : Config) (memory : gmap string State) : option string :=
  memory !! thread_id cfg ≫= dataset_schema.

(** The nodes a run executed, in order. *)
Definition trace (r : Run) : list Node := map fst (steps r).

(** ** The edges, read off a run's steps *)

(** A step of node [n1] that left the state [s1] may be followed by a step
    of node [n2]: the two fixed edges, and the conditional edge out of the
    reasoning node, taken to the tool node on a message that requests the
    query tool. *)
Definition follows_edge (n1 : Node) (s1 : State) (n2 : Node) : Prop :=
  match n1 with
  | N_get_schema => n2 = N_data_chatbot
  | N_data_chatbot =>
      n2 = N_execute_sql /\
      exists m, last (messages s1) = Some m /\ requests_query_tool m
  | N_execute_sql => n2 = N_data_chatbot
  end.

Fixpoint steps_follow_edges (l : list (Node * State)) : Prop :=
  match l with
  | [] => True
  | st :: rest =>
      match rest with
      | [] => True
      | st' :: _ => follows_edge (fst st) (snd st) (fst st') /\ steps_follow_edges rest
      end
  end.

Definition is_data_chatbot (n : Node) : bool :=
  match n with
  | N_data_chatbot => true
  | _ => false
  end.

Definition is_execute_sql (n : Node) : bool :=
  match n with
  | N_execute_sql => true
  | _ => false
  end.

(** The SQL texts a message asks the query tool to run: the [query]
    argument of each invocation of [execute_query_tool], in order. *)
Definition requested_queries (m : Message) : list string :=
  omap (fun tc =>
          if String.eqb "execute_query_tool" (tc_name tc)
          then snd <$> List.find (fun kv => String.eqb (fst kv) "query") (tc_args tc)
          else None)
       (tool_calls_of m).

(** The SQL texts the last message of a state asks for. *)
Definition pending_queries (state : State) : list string :=
  from_option requested_queries [] (last (messages state)).

(** The SQL texts a step leaves to be run by the step after it: those its
    state asks for when it is a reasoning step, none otherwise. *)
Definition step_queries (st : Node * State) : list string :=
  if is_data_chatbot (fst st) then pending_queries (snd st) else [].

(** [isinstance(m, HumanMessage)] *)
Definition isinstance_HumanMessage (m : Message) : bool :=
  match m with
  | HumanMessage _ => true
  | _ => false
  end.

(** The user inputs the loop sends to the graph: those before the first
    [q] or [Q]. *)
Fixpoint inputs_before_quit (users : list string) : list string :=
  match users with
  | [] => []
  | user :: rest =>
      if String.eqb user "q" || String.eqb user "Q" then []
      else user :: inputs_before_quit rest
  end.

(** [isinstance(m, (AIMessage, ToolMessage))] *)
Definition assistant_or_tool (m : Message) : bool :=
  match m with
  | AIMessage _ _ => true
  | ToolMessage _ _ _ => true
  | _ => false
  end.

(** ** The input loop's printing *)

(** Modelled from the spec: what [stream] yields in the mode [updates]
    (section 6, one update per completed node): each node executed, with
    the update it returned.  The recursion is that of [run_from]. *)
Fixpoint stream_updates (budget : nat) (n : Node) (state : State) (w : World)
    : list (Node * Update) :=
  match budget with
  | O => []
  | S budget' =>
      match exec_node n state w with
      | None => []
      | Some (u, w') =>
          let state' := apply_update state u in
          match next_target n state' with
          | Some (Goto n') => (n, u) :: stream_updates budget' n' state' w'
          | _ => [(n, u)]
          end
      end
  end.

(** The loop body's [last_message]: the value of the output's single
    entry, its [messages], indexed with [-1].  An update without
    [messages] raises [KeyError] and an empty list [IndexError]: the
    [None] here. *)
Definition printed_message (output : Node * Update) : option Message :=
  match upd_messages (snd output) with
  | Some new => last new
  | None => None
  end.

(** The messages the loop prints for one user input, or [None] when an
    output makes the loop body raise. *)
Definition print_outputs (outputs : list (Node * Update)) : option (list Message) :=
  mapM printed_message outputs.

(** [user in {q, Q}] *)
Definition quits (user : string) : bool :=
  String.eqb user "q" || String.eqb user "Q".

(** ** Printable text *)

(** The characters from space to tilde. *)
Definition printable (c : ascii) : bool :=
  (32 <=? N_of_ascii c)%N && (N_of_ascii c <=? 126)%N.

Fixpoint all_printable (s : string) : bool :=
  match s with
  | EmptyString => true
  | String c rest => printable c && all_printable rest
  end.

(** ** Loading the sample data *)

Definition PROJECT_ID : string := "[your-project-id]".
Definition DATASET_NAME : string := "choc_ai_test".

(** [f"{PROJECT_ID}.{DATASET_NAME}"] *)
Definition DATASET_ID : string := PROJECT_ID +:+ "." +:+ DATASET_NAME.

Definition tables : list string := ["menu"; "order"; "order_item"].
Definition gcs_uri : string := "choc_ai_dataset".

(** [f"{DATASET_ID}.{table}"] *)
Definition table_id_of (table : string) : string := DATASET_ID +:+ "." +:+ table.

(** [f"gs://{gcs_uri}/{table}.csv"] *)
Definition uri_of (table : string) : string :=
  "gs://" +:+ gcs_uri +:+ "/" +:+ table +:+ ".csv".

(** The two lines the loop prints. *)
Definition skip_line (table_id : string) : string :=
  "Table " +:+ table_id +:+ " already exists. Skipping load.".

Definition loaded_line (rows : nat) : string :=
  "Loaded " +:+ pretty rows +:+ " rows.".

(** BigQuery tables, and the storage side of the load: [load_csv uri] is
    the table that a load job with schema autodetection creates from the
    CSV object at [uri] when the destination does not exist. *)
Variable Table : Type.
Variable num_rows : Table -> nat.
Variable load_csv : string -> Table.

(** The loop over [tables] of the data loading cell, on the dataset as a
    map from table id to table.  [client.get_table] raises [NotFound] for
    an id without a table: the [None] branch, the [except] of the source.
    Returns the dataset and the lines printed.  The dataset itself exists
    by then: the cell creates it first, with [exists_ok]. *)
Fixpoint load_tables (todo : list string) (dataset : gmap string Table)
    : gmap string Table * list string :=
  match todo with
  | [] => (dataset, [])
  | table :: rest =>
      let table_id := table_id_of table in
      let uri := uri_of table in
      match dataset !! table_id with
      | Some _ =>
          let '(dataset', printed) := load_tables rest dataset in
          (dataset', skip_line table_id :: printed)
      | None =>
          let loaded := <[table_id := load_csv uri]> dataset in
          let destination_table := load_csv uri in
          let '(dataset', printed) := load_tables rest loaded in
          (dataset', loaded_line (num_rows destination_table) :: printed)
      end
  end.

(** * Part II: theorems *)

(** ** The router *)

Lemma get_state_route_of (state : State) :
  get_state state = route_of <$> last (messages state).
Proof.
  unfold get_state, route_of.
  destruct (last (messages state)) as [m|]; simpl; [|reflexivity].
  destruct (isinstance_AIMessage m && truthy (tool_calls_of m));
    [destruct (existsb _ _)|]; reflexivity.
Qed.

Lemma execute_sql_neq_END : "execute_sql" <> END.
Proof. discriminate. Qed.

Lemma route_of_execute_sql (m : Message) :
  route_of m = "execute_sql" <-> requests_query_tool m.
Proof.
  unfold route_of, requests_query_tool. split.
  - destruct m as [c|c tcs|c|c n i];
      cbn [isinstance_AIMessage tool_calls_of truthy andb]; try discriminate.
    destruct tcs as [|tc0 tcs0]; cbn [truthy]; [discriminate|].
    destruct (existsb _ (tc0 :: tcs0)) eqn:E; [|discriminate].
    intros _. apply existsb_exists in E as (tc & Hin & Heq).
    apply String.eqb_eq in Heq. exists c, (tc0 :: tcs0), tc. auto.
  - intros (c & tcs & tc & -> & Hin & Hname).
    cbn [isinstance_AIMessage tool_calls_of andb].
    assert (E : existsb (fun t => String.eqb (tc_name t) "execute_query_tool") tcs = true).
    { apply existsb_exists. exists tc. split; [exact Hin|]. now apply String.eqb_eq. }
    rewrite E. destruct tcs as [|tc0 tcs0]; [destruct Hin|]. reflexivity.
Qed.

Lemma route_of_cases (m : Message) :
  route_of m = "execute_sql" \/ route_of m = END.
Proof.
  unfold route_of.
  destruct (isinstance_AIMessage m && truthy (tool_calls_of m));
    [destruct (existsb _ _)|]; auto.
Qed.

Lemma route_of_END (m : Message) :
  route_of m = END <-> ~ requests_query_tool m.
Proof.
  rewrite <- route_of_execute_sql.
  destruct (route_of_cases m) as [H|H]; rewrite H; split; try congruence.
  - intros H'. now apply execute_sql_neq_END in H'.
  - intros H'. now contradict H'.
Qed.

(** C1. Whenever the message list is non-empty, [get_state] answers
    [execute_sql] exactly when the last message is an assistant message
    with a tool invocation named [execute_query_tool], and [END] in every
    other case: in particular for an assistant message without tool calls,
    for one whose invocations are all [SubmitFinalAnswer], and for a last
    message that is not an assistant message. *)
Theorem get_state_execute_sql_iff (state : State) :
  messages state <> [] ->
  exists last_message,
    last (messages state) = Some last_message /\
    (get_state state = Some "execute_sql" <-> requests_query_tool last_message) /\
    (get_state state = Some END <-> ~ requests_query_tool last_message) /\
    (tool_calls_of last_message = [] -> get_state state = Some END) /\
    (Forall (fun tc => tc_name tc = "SubmitFinalAnswer") (tool_calls_of last_message) ->
     get_state state = Some END) /\
    (isinstance_AIMessage last_message = false -> get_state state = Some END).
Proof.
  intros Hne.
  destruct (last (messages state)) as [m|] eqn:Hlast.
  2:{ apply last_None in Hlast. contradiction. }
  exists m. rewrite get_state_route_of, Hlast. simpl.
  split; [reflexivity|].
  split; [rewrite <- route_of_execute_sql; split; congruence|].
  split; [rewrite <- route_of_END; split; congruence|].
  repeat split.
  - intros Hnil. f_equal. apply route_of_END.
    intros (c & tcs & tc & -> & Hin & _). simpl in Hnil. subst. destruct Hin.
  - intros Hall. f_equal. apply route_of_END.
    intros (c & tcs & tc & -> & Hin & Hname). simpl in Hall.
    rewrite Forall_forall in Hall. specialize (Hall tc).
    rewrite list_elem_of_In in Hall. specialize (Hall Hin). congruence.
  - intros Hai. f_equal. apply route_of_END.
    intros (c & tcs & tc & -> & _). discriminate.
Qed.

(** C8. The router's decision is a function of the last message alone: two
    states with the same last message get the same decision, whatever
    their earlier messages and their cached schemas are.  The thread is
    no argument of [get_state] at all. *)
Theorem get_state_last_message_only (state1 state2 : State) :
  last (messages state1) = last (messages state2) ->
  get_state state1 = get_state state2.
Proof.
  intros Hlast. rewrite !get_state_route_of. now rewrite Hlast.
Qed.

Lemma get_state_snoc (history : list Message) (m : Message) (schema : option string) :
  get_state (mkState (history ++ [m]) schema) = Some (route_of m).
Proof.
  rewrite get_state_route_of. cbn [messages]. now rewrite last_snoc.
Qed.

(** ** JSON text *)

Lemma append_nil_l (t : string) : "" +:+ t = t.
Proof. reflexivity. Qed.

Lemma append_cons (c : ascii) (s t : string) :
  String c s +:+ t = String c (s +:+ t).
Proof. reflexivity. Qed.

Lemma append_assoc (s t u : string) : (s +:+ t) +:+ u = s +:+ (t +:+ u).
Proof.
  induction s as [|c s IH]; [reflexivity|].
  rewrite !append_cons. now rewrite IH.
Qed.

(** Reading back what [escape_char] wrote gives the character. *)
Lemma scanstring_escape_char (c : ascii) (s : string) :
  scanstring (escape_char c +:+ s) = decoded c (scanstring s).
Proof.
  destruct c as [[] [] [] [] [] [] [] []]; reflexivity.
Qed.

Lemma scanstring_escape (s rest : string) :
  scanstring (escape s +:+ String dquote rest) = Some (s, rest).
Proof.
  induction s as [|c s IH]; [reflexivity|].
  cbn [escape]. rewrite append_assoc, scanstring_escape_char, IH. reflexivity.
Qed.

(** [json.dumps] of a [str] parses back to that [str]. *)
Lemma json_loads_dumps_str (s : string) :
  json_loads (json_dumps (PyStr s)) = Some (PyStr s).
Proof.
  unfold json_dumps, encode_basestring_ascii, json_loads.
  cbn -[scanstring]. rewrite scanstring_escape. reflexivity.
Qed.

Lemma json_dumps_dict1 (k v : string) :
  json_dumps (PyDict [(k, v)]) =
  String "{" (String dquote (escape k +:+ String dquote (String ":" (String " "
    (String dquote (escape v +:+ String dquote "}")))))).
Proof.
  unfold json_dumps, join, dumps_item, encode_basestring_ascii.
  cbn [map fold_left fst snd].
  rewrite !append_cons, !append_nil_l, !append_assoc, !append_cons.
  rewrite !append_assoc, !append_cons, !append_nil_l. reflexivity.
Qed.

Lemma length_append_pos (s : string) (c : ascii) (t : string) :
  exists n, String.length (s +:+ String c t) = S n.
Proof. destruct s; rewrite ?append_cons, ?append_nil_l; cbn; eauto. Qed.

(** [json.dumps] of a one-entry [dict] parses back to that [dict]. *)
Lemma json_loads_dumps_dict1 (k v : string) :
  json_loads (json_dumps (PyDict [(k, v)])) = Some (PyDict [(k, v)]).
Proof.
  rewrite json_dumps_dict1. unfold json_loads.
  cbn -[scanstring scan_members String.length].
  destruct (length_append_pos (escape k) dquote
    (String ":" (String " " (String dquote (escape v +:+ String dquote "}")))))
    as [n ->].
  cbn [scan_members]. rewrite scanstring_escape.
  cbn -[scanstring scan_members String.length].
  rewrite scanstring_escape. reflexivity.
Qed.

Lemma escape_error_key : escape "BigQuery error" = "BigQuery error".
Proof. reflexivity. Qed.

Lemma escape_error_prefix (e : string) :
  escape ("BigQuery Error: " +:+ e) = "BigQuery Error: " +:+ escape e.
Proof. reflexivity. Qed.

(** ** The query tool *)

Lemma find_tool_execute_query_tool :
  find_tool "execute_query_tool" = Some execute_query_tool_entry.
Proof. reflexivity. Qed.

Lemma tool_node_single_query (history : list Message) (content query id : string)
    (schema : option string) (w : World) :
  tool_node (mkState (history ++ [AIMessage content [query_call query id]]) schema) w =
  ({| upd_dataset_schema := None;
      upd_messages := Some [ToolMessage (fst (execute_query_tool query w))
                                        "execute_query_tool" id] |},
   snd (execute_query_tool query w)).
Proof.
  unfold tool_node. cbn [messages]. rewrite last_snoc.
  cbn -[execute_query_tool].
  destruct (execute_query_tool query w) as [text w1]. reflexivity.
Qed.

(** The [except] branch.  When the backend query raises, with error text
    [e], the text returned is the JSON object with the single key
    [BigQuery error] and the value [BigQuery Error: e]; the tool node
    folds it into a [ToolMessage] that it appends for the invocation, and
    hands control back to the reasoning node. *)
Lemma execute_query_tool_except_branch (query e : string) (w : World) :
  query_and_wait (length (queries_run w)) query = QueryRaised e ->
  let payload := fst (execute_query_tool query w) in
  payload = json_dumps (PyDict [("BigQuery error", "BigQuery Error: " +:+ e)]) /\
  payload = "{" +:+ String dquote ("BigQuery error" +:+ String dquote (": " +:+ String dquote
              ("BigQuery Error: " +:+ escape e +:+ String dquote "}"))) /\
  json_loads payload = Some (PyDict [("BigQuery error", "BigQuery Error: " +:+ e)]) /\
  forall (history : list Message) (content id : string) (schema : option string),
    let state := mkState (history ++ [AIMessage content [query_call query id]]) schema in
    exists u w',
      exec_node N_execute_sql state w = Some (u, w') /\
      messages (apply_update state u) =
        (messages state ++ [ToolMessage payload "execute_query_tool" id])%list /\
      next_target N_execute_sql (apply_update state u) = Some (Goto N_data_chatbot).
Proof.
  intros Hq payload.
  assert (Hp : payload = json_dumps (PyDict [("BigQuery error", "BigQuery Error: " +:+ e)])).
  { unfold payload, execute_query_tool. rewrite Hq. reflexivity. }
  split; [exact Hp|]. split.
  { rewrite Hp, json_dumps_dict1, escape_error_key, escape_error_prefix.
    rewrite ?append_cons, ?append_nil_l, ?append_assoc. reflexivity. }
  split.
  { rewrite Hp. apply json_loads_dumps_dict1. }
  intros history content id schema state.
  exists (fst (tool_node state w)), (snd (tool_node state w)).
  split; [cbn [exec_node]; now destruct (tool_node state w)|].
  split; [|reflexivity].
  unfold state. rewrite tool_node_single_query. reflexivity.
Qed.

(** C6, as amended.  [execute_query_tool] raises exactly when the
    constructor of its client does, which stands before the [try]: the
    constructor's exception leaves the tool with no query sent.  Once
    the client is built the tool raises nothing and returns a text for
    every query, the query being recorded as run; when the backend query
    raises, with error text [e], that text is the JSON object with the
    single key [BigQuery error] and the value [BigQuery Error: e], the
    tool node folds it into a [ToolMessage] that it appends for the
    invocation, and control goes back to the reasoning node. *)
Theorem execute_query_tool_raises_only_from_client (query : string) (w : World) :
  (forall e w',
     execute_query_tool_call query w = ToolRaised e w' <->
     bigquery_Client (length (queries_run w)) = ClientRaised e /\ w' = w) /\
  (bigquery_Client (length (queries_run w)) = ClientBuilt ->
   exists payload w',
     execute_query_tool_call query w = ToolReturned payload w' /\
     queries_run w' = (queries_run w ++ [query])%list /\
     forall e,
       query_and_wait (length (queries_run w)) query = QueryRaised e ->
       payload = json_dumps (PyDict [("BigQuery error", "BigQuery Error: " +:+ e)]) /\
       payload = "{" +:+ String dquote ("BigQuery error" +:+ String dquote (": " +:+
                   String dquote ("BigQuery Error: " +:+ escape e +:+ String dquote "}"))) /\
       json_loads payload = Some (PyDict [("BigQuery error", "BigQuery Error: " +:+ e)]) /\
       forall (history : list Message) (content id : string) (schema : option string),
         let state := mkState (history ++ [AIMessage content [query_call query id]]) schema in
         exists u w1,
           exec_node N_execute_sql state w = Some (u, w1) /\
           messages (apply_update state u) =
             (messages state ++ [ToolMessage payload "execute_query_tool" id])%list /\
           next_target N_execute_sql (apply_update state u) = Some (Goto N_data_chatbot)).
Proof.
  split.
  - intros e w'. unfold execute_query_tool_call.
    destruct (bigquery_Client (length (queries_run w))) as [|e0].
    + destruct (execute_query_tool query w). split; [discriminate|].
      intros [Hraised _]. discriminate.
    + split; [intros [= -> ->]; auto|intros [[= ->] ->]; reflexivity].
  - intros Hclient.
    exists (fst (execute_query_tool query w)), (snd (execute_query_tool query w)).
    split.
    { unfold execute_query_tool_call. rewrite Hclient.
      now destruct (execute_query_tool query w). }
    split.
    { unfold execute_query_tool.
      now destruct (query_and_wait (length (queries_run w)) query). }
    intros e Hq. exact (execute_query_tool_except_branch query e w Hq).
Qed.

(** The success branch: the text returned is [json.dumps] of the printed
    rows, a JSON string literal that parses back to that printed form. *)
Lemma execute_query_tool_success_branch (query : string)
    (rows : list (list (string * Cell))) (w : World) :
  query_and_wait (length (queries_run w)) query = RowsReturned rows ->
  let payload := fst (execute_query_tool query w) in
  payload = String dquote (escape (str_rows rows) +:+ String dquote "") /\
  json_loads payload = Some (PyStr (str_rows rows)).
Proof.
  intros Hq payload.
  assert (Hp : payload = json_dumps (PyStr (str_rows rows))).
  { unfold payload, execute_query_tool. rewrite Hq. reflexivity. }
  split; [exact Hp|].
  rewrite Hp. apply json_loads_dumps_str.
Qed.

(** ** Nodes and the merge rule *)

Lemma apply_update_messages (state : State) (u : Update) (new : list Message) :
  upd_messages u = Some new ->
  messages (apply_update state u) = (messages state ++ new)%list.
Proof. intros H. unfold apply_update, add_messages. cbn. now rewrite H. Qed.

Lemma apply_update_prefix (state : State) (u : Update) :
  messages state `prefix_of` messages (apply_update state u).
Proof.
  unfold apply_update, add_messages. cbn.
  destruct (upd_messages u) as [new|]; [|reflexivity].
  now apply prefix_app_r.
Qed.

(** Every node returns a [messages] entry. *)
Lemma exec_node_sets_messages (n : Node) (state : State) (w : World)
    (u : Update) (w' : World) :
  exec_node n state w = Some (u, w') -> exists new, upd_messages u = Some new.
Proof.
  destruct n; cbn [exec_node].
  - unfold get_schema_node, get_schema.
    destruct (dataset_schema state); intros [= <- <-]; cbn; eauto.
  - unfold data_chatbot_node.
    destruct (dataset_schema state); [|discriminate].
    intros [= <- <-]; cbn; eauto.
  - unfold tool_node. destruct (run_tool_calls _ w) as [msgs w1].
    intros [= <- <-]; cbn; eauto.
Qed.

(** C3. Each step of the state machine, whichever node runs, leaves the
    messages it found as an unchanged prefix of the new message list: the
    node's messages are appended, so the list never shrinks, and nothing
    in it is removed, reordered or overwritten. *)
Theorem messages_append_only (n : Node) (state : State) (w : World)
    (u : Update) (w' : World) :
  exec_node n state w = Some (u, w') ->
  messages state `prefix_of` messages (apply_update state u) /\
  length (messages state) <= length (messages (apply_update state u)) /\
  exists new,
    upd_messages u = Some new /\
    messages (apply_update state u) = (messages state ++ new)%list.
Proof.
  intros Hexec. split; [apply apply_update_prefix|]. split.
  - apply prefix_length, apply_update_prefix.
  - destruct (exec_node_sets_messages _ _ _ _ _ Hexec) as [new Hnew].
    exists new. split; [exact Hnew|]. now apply apply_update_messages.
Qed.

(** The same along a whole run: every checkpointed state extends the
    state the run started from. *)
Lemma run_from_prefix (budget : nat) (n : Node) (state : State) (w : World) :
  Forall (fun st => messages state `prefix_of` messages (snd st))
         (steps (run_from budget n state w)) /\
  messages state `prefix_of` messages (final_state (run_from budget n state w)).
Proof.
  revert n state w. induction budget as [|b IH]; intros n state w; cbn [run_from].
  { cbn. split; [constructor|reflexivity]. }
  destruct (exec_node n state w) as [[u w']|]; [|cbn; split; [constructor|reflexivity]].
  pose proof (apply_update_prefix state u) as Hp.
  destruct (next_target n (apply_update state u)) as [[n'|]|];
    cbn [steps final_state].
  - destruct (IH n' (apply_update state u) w') as [Hall Hfin]. split.
    + constructor; [exact Hp|].
      eapply Forall_impl; [exact Hall|]. intros st Hst.
      now transitivity (messages (apply_update state u)).
    + now transitivity (messages (apply_update state u)).
  - split; [repeat constructor; exact Hp|exact Hp].
  - split; [repeat constructor; exact Hp|exact Hp].
Qed.

(** ** The schema node *)

Lemma get_schema_node_note (state : State) (w : World) :
  upd_messages (fst (get_schema_node state w)) =
  Some [AIMessage (match dataset_schema state with
                   | None => "Schema retrieved from BigQuery"
                   | Some _ => "Schema retrieved from memory"
                   end) []].
Proof. unfold get_schema_node, get_schema. now destruct (dataset_schema state). Qed.

Lemma get_schema_node_calls (state : State) (w : World) :
  metadata_calls (snd (get_schema_node state w)) =
  match dataset_schema state with
  | None => S (metadata_calls w)
  | Some _ => metadata_calls w
  end.
Proof. unfold get_schema_node, get_schema. now destruct (dataset_schema state). Qed.

Lemma get_schema_node_sets_schema (state : State) (w : World) :
  dataset_schema (apply_update state (fst (get_schema_node state w))) =
  match dataset_schema state with
  | None => Some (list_tables_schema (metadata_calls w))
  | Some schema => Some schema
  end.
Proof.
  unfold get_schema_node, get_schema.
  destruct (dataset_schema state) eqn:E; cbn; now rewrite ?E.
Qed.

Lemma find_tool_Some (name : string) (tool : Tool) :
  find_tool name = Some tool -> tool = execute_query_tool_entry.
Proof.
  unfold find_tool, tools_by_name. cbn [List.find fst].
  destruct (String.eqb "execute_query_tool" name); cbn; congruence.
Qed.

Lemma execute_query_tool_metadata_calls (query : string) (w : World) :
  metadata_calls (snd (execute_query_tool query w)) = metadata_calls w.
Proof.
  unfold execute_query_tool.
  now destruct (query_and_wait (length (queries_run w)) query).
Qed.

Lemma run_tool_calls_metadata_calls (tcs : list ToolCall) (w : World) :
  metadata_calls (snd (run_tool_calls tcs w)) = metadata_calls w.
Proof.
  revert w. induction tcs as [|tc tcs IH]; intros w; cbn [run_tool_calls]; [reflexivity|].
  destruct (find_tool (tc_name tc)) as [tool|] eqn:Hfind; [|apply IH].
  apply find_tool_Some in Hfind as ->.
  destruct (execute_query_tool_entry tc w) as [text w1] eqn:Htool.
  specialize (IH w1). destruct (run_tool_calls tcs w1) as [msgs w2]. cbn in *.
  rewrite IH. unfold execute_query_tool_entry in Htool.
  destruct (List.find _ (tc_args tc)) as [kv|].
  - pose proof (execute_query_tool_metadata_calls (snd kv) w) as H.
    now rewrite Htool in H.
  - now inversion Htool.
Qed.

(** No node but the schema node on an empty cache touches the metadata
    backend or the cached schema. *)
Lemma exec_node_cached (n : Node) (state : State) (w : World)
    (u : Update) (w' : World) (schema : string) :
  dataset_schema state = Some schema ->
  exec_node n state w = Some (u, w') ->
  dataset_schema (apply_update state u) = Some schema /\
  metadata_calls w' = metadata_calls w.
Proof.
  intros Hs. destruct n; cbn [exec_node].
  - unfold get_schema_node. rewrite Hs. intros [= <- <-]. cbn. now rewrite Hs.
  - unfold data_chatbot_node. rewrite Hs. intros [= <- <-]. cbn. now rewrite Hs.
  - unfold tool_node.
    pose proof (run_tool_calls_metadata_calls
                  (match last (messages state) with
                   | Some last_message => tool_calls_of last_message
                   | None => []
                   end) w) as Hcalls.
    destruct (run_tool_calls _ w) as [msgs w1]. intros [= <- <-]. cbn in *.
    now rewrite Hs.
Qed.

Lemma tool_node_keeps_schema (state : State) (w : World) :
  dataset_schema (apply_update state (fst (tool_node state w))) = dataset_schema state /\
  metadata_calls (snd (tool_node state w)) = metadata_calls w.
Proof.
  unfold tool_node.
  pose proof (run_tool_calls_metadata_calls
                (match last (messages state) with
                 | Some last_message => tool_calls_of last_message
                 | None => []
                 end) w) as Hcalls.
  destruct (run_tool_calls _ w) as [msgs w1]. cbn in *. auto.
Qed.

(** ** Runs *)

Lemma default_last_cons {A B : Type} (f : A -> B) (a b : B) (x : A) (l : list A) :
  default a (f <$> last (x :: l)) = default b (f <$> last (x :: l)).
Proof.
  revert x. induction l as [|y l IH]; intros x; [reflexivity|]. apply (IH y).
Qed.

Lemma run_from_final_state (budget : nat) (n : Node) (state : State) (w : World) :
  final_state (run_from budget n state w) =
  default state (snd <$> last (steps (run_from budget n state w))).
Proof.
  revert n state w. induction budget as [|b IH]; intros n state w; cbn [run_from].
  { reflexivity. }
  destruct (exec_node n state w) as [[u w']|]; [|reflexivity].
  destruct (next_target n (apply_update state u)) as [[n'|]|]; [|reflexivity..].
  cbn [steps final_state]. rewrite IH.
  destruct (steps (run_from b n' (apply_update state u) w')) as [|st sts];
    [reflexivity|].
  exact (default_last_cons snd (apply_update state u) state st sts).
Qed.

(** A smaller budget stops the same run earlier: its steps are the first
    steps of the run with the larger budget. *)
Lemma run_from_steps_take (k j : nat) (n : Node) (state : State) (w : World) :
  steps (run_from k n state w) = take k (steps (run_from (k + j) n state w)).
Proof.
  revert n state w. induction k as [|k IH]; intros n state w.
  { reflexivity. }
  cbn [Nat.add run_from].
  destruct (exec_node n state w) as [[u w']|]; [|reflexivity].
  destruct (next_target n (apply_update state u)) as [[n'|]|];
    cbn [steps take]; [|now rewrite take_nil..].
  now rewrite IH.
Qed.

(** With the schema cached, a run issues no metadata call and keeps the
    schema in every state it checkpoints. *)
Lemma run_from_cached (budget : nat) (n : Node) (state : State) (w : World)
    (schema : string) :
  dataset_schema state = Some schema ->
  metadata_calls (world_after (run_from budget n state w)) = metadata_calls w /\
  dataset_schema (final_state (run_from budget n state w)) = Some schema /\
  Forall (fun st => dataset_schema (snd st) = Some schema)
         (steps (run_from budget n state w)).
Proof.
  revert n state w. induction budget as [|b IH]; intros n state w Hs; cbn [run_from].
  { cbn. auto. }
  destruct (exec_node n state w) as [[u w']|] eqn:Hexec; [|cbn; auto].
  destruct (exec_node_cached _ _ _ _ _ _ Hs Hexec) as [Hs' Hcalls].
  destruct (next_target n (apply_update state u)) as [[n'|]|];
    cbn [steps final_state world_after]; [|auto..].
  destruct (IH n' (apply_update state u) w' Hs') as (Hc & Hf & Hall).
  split; [congruence|]. split; [exact Hf|]. now constructor.
Qed.

(** A run issues at most one metadata call, and one that issued a call
    leaves the schema cached. *)
Lemma run_from_calls_bound (budget : nat) (n : Node) (state : State) (w : World) :
  let r := run_from budget n state w in
  (metadata_calls (world_after r) = metadata_calls w /\
   dataset_schema (final_state r) = dataset_schema state) \/
  (metadata_calls (world_after r) = S (metadata_calls w) /\
   dataset_schema state = None /\
   is_Some (dataset_schema (final_state r))).
Proof.
  revert n state w. induction budget as [|b IH]; intros n state w; cbn zeta.
  { left. cbn. auto. }
  destruct (dataset_schema state) as [schema|] eqn:Hs.
  { destruct (run_from_cached (S b) n state w schema Hs) as (Hc & Hf & _).
    left. now rewrite Hf. }
  cbn [run_from]. destruct n; cbn [exec_node next_target].
  - destruct (get_schema_node state w) as [u w'] eqn:Hnode.
    pose proof (get_schema_node_calls state w) as Hcalls.
    pose proof (get_schema_node_sets_schema state w) as Hset.
    rewrite Hnode, Hs in Hcalls, Hset. cbn [fst snd] in Hcalls, Hset.
    destruct (run_from_cached b N_data_chatbot (apply_update state u) w' _ Hset)
      as (Hc & Hf & _).
    right. cbn [world_after final_state]. rewrite Hc, Hf. eauto.
  - unfold data_chatbot_node. rewrite Hs. left. cbn. auto.
  - destruct (tool_node state w) as [u w'] eqn:Hnode.
    destruct (tool_node_keeps_schema state w) as [Hkeep Hcalls].
    rewrite Hnode in Hkeep, Hcalls. cbn [fst snd] in Hkeep, Hcalls.
    cbn [world_after final_state].
    destruct (IH N_data_chatbot (apply_update state u) w') as [[Hc Hf]|(Hc & Hn & Hf)].
    + left. split; congruence.
    + right. rewrite Hc, Hcalls. split; [reflexivity|]. split; [reflexivity|exact Hf].
Qed.

(** ** Invocations *)

Lemma stream_run (cfg : Config) (input : list Message)
    (memory : gmap string State) (w : World) :
  fst (stream cfg input memory w) =
  run_from (recursion_limit cfg) entry_point (input_state cfg input memory) w.
Proof. reflexivity. Qed.

Lemma stream_memory (cfg : Config) (input : list Message)
    (memory : gmap string State) (w : World) :
  snd (stream cfg input memory w) !! thread_id cfg =
  Some (final_state (fst (stream cfg input memory w))).
Proof. unfold stream. cbn [fst snd]. apply lookup_insert_eq. Qed.

Lemma input_state_schema (cfg : Config) (input : list Message)
    (memory : gmap string State) :
  dataset_schema (input_state cfg input memory) = cached_schema cfg memory.
Proof.
  unfold input_state, loaded_state, cached_schema. cbn.
  now destruct (memory !! thread_id cfg).
Qed.

Lemma cached_schema_stream (cfg : Config) (input : list Message)
    (memory : gmap string State) (w : World) :
  cached_schema cfg (snd (stream cfg input memory w)) =
  dataset_schema (final_state (fst (stream cfg input memory w))).
Proof. unfold cached_schema. now rewrite stream_memory. Qed.

(** One invocation: no metadata call and the same schema when the thread
    has its schema cached; at most one call otherwise, after which the
    schema is cached. *)
Lemma stream_calls (cfg : Config) (input : list Message)
    (memory : gmap string State) (w : World) :
  let r := fst (stream cfg input memory w) in
  let memory' := snd (stream cfg input memory w) in
  (metadata_calls (world_after r) = metadata_calls w /\
   cached_schema cfg memory' = cached_schema cfg memory) \/
  (metadata_calls (world_after r) = S (metadata_calls w) /\
   cached_schema cfg memory = None /\
   is_Some (cached_schema cfg memory')).
Proof.
  cbn zeta. rewrite cached_schema_stream, stream_run.
  rewrite <- (input_state_schema cfg input memory).
  apply run_from_calls_bound.
Qed.

Lemma chat_loop_cached (cfg : Config) (users : list string)
    (memory : gmap string State) (w : World) (schema : string) :
  cached_schema cfg memory = Some schema ->
  metadata_calls (snd (chat_loop cfg users memory w)) = metadata_calls w /\
  cached_schema cfg (fst (chat_loop cfg users memory w)) = Some schema.
Proof.
  revert memory w. induction users as [|user rest IH]; intros memory w Hs;
    cbn [chat_loop]; [auto|].
  destruct (String.eqb user "q" || String.eqb user "Q"); [auto|].
  destruct (stream_calls cfg [HumanMessage user] memory w) as [[Hc Hm]|(_ & Hn & _)];
    [|congruence].
  destruct (stream cfg [HumanMessage user] memory w) as [r memory'].
  cbn [fst snd] in *. rewrite Hs in Hm.
  destruct (outcome r); [|cbn [fst snd]; auto..].
  destruct (IH memory' (world_after r) Hm) as [Hc' Hm']. split; congruence.
Qed.

Lemma chat_loop_calls (cfg : Config) (users : list string)
    (memory : gmap string State) (w : World) :
  metadata_calls w <= metadata_calls (snd (chat_loop cfg users memory w))
    <= S (metadata_calls w).
Proof.
  revert memory w. induction users as [|user rest IH]; intros memory w;
    cbn [chat_loop]; [cbn; lia|].
  destruct (String.eqb user "q" || String.eqb user "Q"); [cbn; lia|].
  destruct (stream_calls cfg [HumanMessage user] memory w)
    as [[Hc Hm]|(Hc & Hn & [schema Hm])];
    destruct (stream cfg [HumanMessage user] memory w) as [r memory'];
    cbn [fst snd] in *.
  - destruct (outcome r); [|cbn [snd]; lia..].
    specialize (IH memory' (world_after r)). lia.
  - destruct (outcome r); [|cbn [snd]; lia..].
    destruct (chat_loop_cached cfg rest memory' (world_after r) schema Hm) as [Hc' _].
    lia.
Qed.

Lemma run_from_entry (b : nat) (state : State) (w : World) :
  run_from (S b) N_get_schema state w =
  let s1 := apply_update state (fst (get_schema_node state w)) in
  let r := run_from b N_data_chatbot s1 (snd (get_schema_node state w)) in
  mkRun (outcome r) ((N_get_schema, s1) :: steps r) (final_state r) (world_after r).
Proof.
  cbn [run_from exec_node next_target].
  now destruct (get_schema_node state w) as [u w'].
Qed.

Lemma path_target_Goto (route : string) (n : Node) :
  path_target route = Some (Goto n) -> n = N_execute_sql.
Proof.
  unfold path_target.
  destruct (String.eqb route (node_name N_execute_sql)); [congruence|].
  destruct (String.eqb route END); congruence.
Qed.

(** The schema node runs at the entry of a run only. *)
Lemma run_from_no_schema_node (b : nat) (n : Node) (state : State) (w : World) :
  n <> N_get_schema ->
  Forall (fun st => fst st <> N_get_schema) (steps (run_from b n state w)).
Proof.
  revert n state w. induction b as [|b IH]; intros n state w Hn; cbn [run_from].
  { constructor. }
  destruct (exec_node n state w) as [[u w']|]; [|constructor].
  destruct (next_target n (apply_update state u)) as [[n'|]|] eqn:Hnext;
    cbn [steps]; [|repeat constructor; exact Hn..].
  constructor; [exact Hn|]. apply IH.
  destruct n; cbn [next_target] in Hnext; [congruence| |congruence].
  destruct (get_state _) as [route|]; [|discriminate].
  apply path_target_Goto in Hnext. congruence.
Qed.

Lemma stream_first_step (tid : string) (b : nat) (input : list Message)
    (memory : gmap string State) (w : World) :
  let cfg := mkConfig tid (S b) in
  let state := input_state cfg input memory in
  let s1 := apply_update state (fst (get_schema_node state w)) in
  let rest := steps (run_from b N_data_chatbot s1 (snd (get_schema_node state w))) in
  steps (fst (stream cfg input memory w)) = (N_get_schema, s1) :: rest /\
  Forall (fun st => fst st <> N_get_schema) rest.
Proof.
  cbn zeta. rewrite stream_run. cbn [recursion_limit]. unfold entry_point.
  rewrite run_from_entry. cbn [steps]. split; [reflexivity|].
  now apply run_from_no_schema_node.
Qed.

(** An invocation that runs at least one node leaves the schema cached. *)
Lemma stream_caches (tid : string) (b : nat) (input : list Message)
    (memory : gmap string State) (w : World) :
  is_Some (cached_schema (mkConfig tid (S b))
             (snd (stream (mkConfig tid (S b)) input memory w))).
Proof.
  rewrite cached_schema_stream, stream_run. cbn [recursion_limit]. unfold entry_point.
  rewrite run_from_entry. cbn [final_state].
  set (state := input_state (mkConfig tid (S b)) input memory).
  pose proof (get_schema_node_sets_schema state w) as Hset.
  assert (Hsome : exists schema,
    dataset_schema (apply_update state (fst (get_schema_node state w))) = Some schema).
  { rewrite Hset. destruct (dataset_schema state); eauto. }
  destruct Hsome as [schema Hschema].
  destruct (run_from_cached b N_data_chatbot _ (snd (get_schema_node state w)) schema Hschema)
    as (_ & Hf & _).
  rewrite Hf. eauto.
Qed.

(** C4. The metadata backend is called by the schema node only, and only
    when [dataset_schema] is [None]; a node that finds the schema set
    leaves it as it is and issues no metadata call.  Hence any number of
    turns on one thread issue at most one metadata call, none at all when
    the thread's checkpoint already holds a schema, and of two invocations
    with the same thread the second issues none once the first has run
    its schema node. *)
Theorem schema_fetched_at_most_once (cfg : Config) (users : list string)
    (memory : gmap string State) (w : World) :
  (forall state w0,
     metadata_calls (snd (get_schema_node state w0)) =
     match dataset_schema state with
     | None => S (metadata_calls w0)
     | Some _ => metadata_calls w0
     end) /\
  (forall n state w0 u w1 schema,
     dataset_schema state = Some schema ->
     exec_node n state w0 = Some (u, w1) ->
     dataset_schema (apply_update state u) = Some schema /\
     metadata_calls w1 = metadata_calls w0) /\
  metadata_calls (snd (chat_loop cfg users memory w)) <= S (metadata_calls w) /\
  (forall schema,
     cached_schema cfg memory = Some schema ->
     metadata_calls (snd (chat_loop cfg users memory w)) = metadata_calls w /\
     cached_schema cfg (fst (chat_loop cfg users memory w)) = Some schema) /\
  (forall input1 input2,
     let first := stream cfg input1 memory w in
     let second := stream cfg input2 (snd first) (world_after (fst first)) in
     metadata_calls (world_after (fst second)) <= S (metadata_calls w) /\
     (recursion_limit cfg <> 0 ->
      metadata_calls (world_after (fst second)) = metadata_calls (world_after (fst first)) /\
      cached_schema cfg (snd second) = cached_schema cfg (snd first))).
Proof.
  split; [apply get_schema_node_calls|].
  split; [intros n state w0 u w1 schema; apply exec_node_cached|].
  split; [apply chat_loop_calls|].
  split; [apply chat_loop_cached|].
  intros input1 input2 first second.
  pose proof (stream_calls cfg input1 memory w) as H1.
  pose proof (stream_calls cfg input2 (snd first) (world_after (fst first))) as H2.
  cbn zeta in H1, H2. fold first in H1, H2. fold second in H2.
  split.
  - destruct H1 as [[Hc1 Hm1]|(Hc1 & Hn1 & Hs1)];
      destruct H2 as [[Hc2 Hm2]|(Hc2 & Hn2 & Hs2)]; try lia.
    rewrite Hn2 in Hs1. now destruct Hs1.
  - intros Hlimit.
    destruct cfg as [tid [|b]]; [now contradict Hlimit|].
    pose proof (stream_caches tid b input1 memory w) as Hcached.
    fold first in Hcached.
    destruct H2 as [[Hc2 Hm2]|(Hc2 & Hn2 & Hs2)]; [auto|].
    rewrite Hn2 in Hcached. now destruct Hcached.
Qed.

(** C9. The schema node's update holds exactly one new assistant message,
    [Schema retrieved from BigQuery] when the schema was absent and
    [Schema retrieved from memory] when it was cached.  So every
    invocation that runs a node starts by appending that one note after
    the thread's messages and the input, on a cached schema too, and no
    later step of the invocation is a schema step: the reasoning node
    runs after the note is in the conversation. *)
Theorem get_schema_node_appends_one_note (state : State) (w : World) :
  let note := AIMessage (match dataset_schema state with
                         | None => "Schema retrieved from BigQuery"
                         | Some _ => "Schema retrieved from memory"
                         end) [] in
  upd_messages (fst (get_schema_node state w)) = Some [note] /\
  messages (apply_update state (fst (get_schema_node state w))) =
    (messages state ++ [note])%list /\
  forall (tid : string) (b : nat) (input : list Message) (memory : gmap string State),
    let cfg := mkConfig tid (S b) in
    let turn_note := AIMessage (match cached_schema cfg memory with
                                | None => "Schema retrieved from BigQuery"
                                | Some _ => "Schema retrieved from memory"
                                end) [] in
    exists s1 rest,
      steps (fst (stream cfg input memory w)) = (N_get_schema, s1) :: rest /\
      messages s1 = (messages (loaded_state cfg memory) ++ input ++ [turn_note])%list /\
      Forall (fun st => fst st <> N_get_schema) rest.
Proof.
  cbn zeta. split; [apply get_schema_node_note|]. split.
  { apply apply_update_messages, get_schema_node_note. }
  intros tid b input memory.
  destruct (stream_first_step tid b input memory w) as [Hsteps Hrest].
  cbn zeta in Hsteps, Hrest.
  eexists _, _. split; [exact Hsteps|]. split; [|exact Hrest].
  rewrite (apply_update_messages _ _ _ (get_schema_node_note _ w)).
  rewrite input_state_schema.
  unfold input_state. cbn [apply_update messages upd_messages].
  unfold add_messages. now rewrite <- app_assoc.
Qed.

Lemma run_from_data_chatbot_step (b : nat) (state : State) (w : World) :
  is_Some (dataset_schema state) ->
  exists s2 rest,
    steps (run_from (S b) N_data_chatbot state w) = (N_data_chatbot, s2) :: rest.
Proof.
  intros [schema Hs]. cbn [run_from exec_node]. unfold data_chatbot_node. rewrite Hs.
  destruct (next_target N_data_chatbot _) as [[n'|]|]; cbn [steps]; eauto.
Qed.

(** C7, as amended.  Every invocation that runs a node enters the state
    machine at the schema node, on a thread that has completed turns and
    cached its schema as on a new one, and runs it once; the reasoning
    node comes second.  On a thread whose schema is cached the schema node
    issues no metadata call, appends [Schema retrieved from memory] and
    leaves the schema as it is. *)
Theorem every_turn_enters_at_schema_node (tid : string) (b : nat)
    (input : list Message) (memory : gmap string State) (w : World) :
  let cfg := mkConfig tid (S b) in
  let r := fst (stream cfg input memory w) in
  exists s1 rest,
    steps r = (N_get_schema, s1) :: rest /\
    Forall (fun st => fst st <> N_get_schema) rest /\
    (b <> 0 -> exists s2 rest', rest = (N_data_chatbot, s2) :: rest') /\
    forall schema,
      cached_schema cfg memory = Some schema ->
      messages s1 =
        (messages (loaded_state cfg memory) ++ input
           ++ [AIMessage "Schema retrieved from memory" []])%list /\
      dataset_schema s1 = Some schema /\
      metadata_calls (world_after r) = metadata_calls w /\
      dataset_schema (final_state r) = Some schema.
Proof.
  cbn zeta.
  destruct (stream_first_step tid b input memory w) as [Hsteps Hrest].
  cbn zeta in Hsteps, Hrest.
  set (cfg := mkConfig tid (S b)) in *.
  set (state := input_state cfg input memory) in *.
  eexists _, _. split; [exact Hsteps|]. split; [exact Hrest|]. split.
  - intros Hb. destruct b as [|b']; [now contradict Hb|].
    apply run_from_data_chatbot_step.
    rewrite get_schema_node_sets_schema. destruct (dataset_schema state); eauto.
  - intros schema Hcached.
    assert (Hs : dataset_schema state = Some schema).
    { unfold state. now rewrite input_state_schema. }
    split.
    { rewrite (apply_update_messages _ _ _ (get_schema_node_note state w)), Hs.
      unfold state, input_state. cbn [apply_update messages upd_messages].
      unfold add_messages. now rewrite <- app_assoc. }
    split.
    { rewrite get_schema_node_sets_schema. now rewrite Hs. }
    rewrite stream_run. cbn [recursion_limit]. fold state.
    destruct (run_from_cached (S b) entry_point state w schema Hs) as (Hc & Hf & _).
    auto.
Qed.

(** ** The step budget *)

Lemma path_target_execute_sql : path_target "execute_sql" = Some (Goto N_execute_sql).
Proof. reflexivity. Qed.

Lemma path_target_END : path_target END = Some Finish.
Proof. reflexivity. Qed.

(** Against a model that always requests the query tool no run ends by
    itself: it uses up its budget, one node execution per unit. *)
Lemma run_from_never_done (b : nat) (n : Node) (state : State) (w : World) :
  (forall k prompt, requests_query_tool (llm_invoke k prompt)) ->
  n = N_get_schema \/ is_Some (dataset_schema state) ->
  outcome (run_from b n state w) = RecursionLimitExceeded /\
  length (steps (run_from b n state w)) = b.
Proof.
  intros Hllm. revert n state w.
  induction b as [|b IH]; intros n state w Hn; cbn [run_from]; [auto|].
  destruct n; cbn [exec_node next_target].
  - destruct (get_schema_node state w) as [u w'] eqn:Hnode.
    pose proof (get_schema_node_sets_schema state w) as Hset.
    rewrite Hnode in Hset. cbn [fst] in Hset.
    destruct (IH N_data_chatbot (apply_update state u) w') as [Ho Hl].
    { right. rewrite Hset. destruct (dataset_schema state); eauto. }
    cbn [outcome steps length]. auto.
  - destruct Hn as [Hn|[schema Hs]]; [discriminate|].
    unfold data_chatbot_node. rewrite Hs.
    set (response := llm_invoke (llm_calls w) _).
    set (u := {| upd_dataset_schema := None; upd_messages := Some [response] |}).
    assert (Hroute : get_state (apply_update state u) = Some "execute_sql").
    { rewrite get_state_route_of. cbn [apply_update messages upd_messages u].
      unfold add_messages. rewrite last_snoc. cbn [fmap option_fmap option_map].
      f_equal. apply route_of_execute_sql, Hllm. }
    rewrite Hroute, path_target_execute_sql.
    destruct (IH N_execute_sql (apply_update state u)
                (mkWorld (metadata_calls w) (queries_run w) (S (llm_calls w)))) as [Ho Hl].
    { right. cbn. rewrite Hs. eauto. }
    cbn [outcome steps length]. auto.
  - destruct Hn as [Hn|Hs]; [discriminate|].
    destruct (tool_node state w) as [u w'] eqn:Hnode.
    destruct (tool_node_keeps_schema state w) as [Hkeep _].
    rewrite Hnode in Hkeep. cbn [fst] in Hkeep.
    destruct (IH N_data_chatbot (apply_update state u) w') as [Ho Hl].
    { right. now rewrite Hkeep. }
    cbn [outcome steps length]. auto.
Qed.

(** C5. Against a reasoning collaborator that always requests the query
    tool, an invocation with step budget [N] fails with
    [RecursionLimitExceeded] after exactly [N] node executions: every
    smaller budget stops the same run after its own number of steps, so
    none of the [N] steps is skipped and none is added.  The thread's
    checkpoint is the state after the last completed step, and the
    conversation loaded and the input are an unchanged prefix of it. *)
Theorem recursion_limit_enforced (cfg : Config) (input : list Message)
    (memory : gmap string State) (w : World) :
  (forall k prompt, requests_query_tool (llm_invoke k prompt)) ->
  let r := fst (stream cfg input memory w) in
  let memory' := snd (stream cfg input memory w) in
  outcome r = RecursionLimitExceeded /\
  length (steps r) = recursion_limit cfg /\
  (forall k, k <= recursion_limit cfg ->
     steps (fst (stream (mkConfig (thread_id cfg) k) input memory w)) = take k (steps r)) /\
  memory' !! thread_id cfg = Some (final_state r) /\
  final_state r = default (input_state cfg input memory) (snd <$> last (steps r)) /\
  (messages (loaded_state cfg memory) ++ input)%list `prefix_of` messages (final_state r).
Proof.
  intros Hllm r memory'.
  destruct (run_from_never_done (recursion_limit cfg) entry_point
              (input_state cfg input memory) w Hllm) as [Ho Hl];
    [now left|].
  split; [exact Ho|]. split; [exact Hl|]. split.
  { intros k Hk. unfold r. rewrite !stream_run. cbn [recursion_limit thread_id].
    replace (recursion_limit cfg) with (k + (recursion_limit cfg - k)) by lia.
    apply run_from_steps_take. }
  split; [apply stream_memory|].
  split; [apply run_from_final_state|].
  apply (run_from_prefix (recursion_limit cfg) entry_point (input_state cfg input memory) w).
Qed.

(** No run that starts at the entry point, or at any node with the schema
    set, stops on a [KeyError] or an [IndexError]. *)
Lemma run_from_outcome (b : nat) (n : Node) (state : State) (w : World) :
  n = N_get_schema \/ is_Some (dataset_schema state) ->
  outcome (run_from b n state w) = Done \/
  outcome (run_from b n state w) = RecursionLimitExceeded.
Proof.
  revert n state w.
  induction b as [|b IH]; intros n state w Hn; cbn [run_from]; [auto|].
  destruct n; cbn [exec_node next_target].
  - destruct (get_schema_node state w) as [u w'] eqn:Hnode.
    pose proof (get_schema_node_sets_schema state w) as Hset.
    rewrite Hnode in Hset. cbn [fst] in Hset. cbn [outcome].
    apply IH. right. rewrite Hset. destruct (dataset_schema state); eauto.
  - destruct Hn as [Hn|[schema Hs]]; [discriminate|].
    unfold data_chatbot_node. rewrite Hs.
    set (response := llm_invoke (llm_calls w) _).
    set (u := {| upd_dataset_schema := None; upd_messages := Some [response] |}).
    assert (Hroute : get_state (apply_update state u) = Some (route_of response)).
    { rewrite get_state_route_of. cbn [apply_update messages upd_messages u].
      unfold add_messages. now rewrite last_snoc. }
    rewrite Hroute.
    destruct (route_of_cases response) as [-> | ->].
    + rewrite path_target_execute_sql. cbn [outcome].
      apply IH. right. cbn. rewrite Hs. eauto.
    + rewrite path_target_END. cbn [outcome]. auto.
  - destruct Hn as [Hn|Hs]; [discriminate|].
    destruct (tool_node state w) as [u w'] eqn:Hnode.
    destruct (tool_node_keeps_schema state w) as [Hkeep _].
    rewrite Hnode in Hkeep. cbn [fst] in Hkeep. cbn [outcome].
    apply IH. right. now rewrite Hkeep.
Qed.

(** X1. No invocation stops on an exception of the workflow's own
    code: the router never indexes an empty message list ([IndexError])
    and the reasoning node never misses the schema ([KeyError]), because
    the schema node runs first and every node appends to the messages.
    In the terms of [Outcome] no run is [NodeRaised].  What a
    collaborator raises (the client of [execute_query_tool_call], the
    model) is not an [Outcome] and is not excluded here. *)
Theorem stream_outcome (cfg : Config) (input : list Message)
    (memory : gmap string State) (w : World) :
  outcome (fst (stream cfg input memory w)) = Done \/
  outcome (fst (stream cfg input memory w)) = RecursionLimitExceeded.
Proof. rewrite stream_run. apply run_from_outcome. now left. Qed.

(** ** The terminal tool *)

(** C2, as amended.  When the last message invokes [SubmitFinalAnswer] and
    does not also invoke the query tool, the router answers [END] and the
    edge out of the reasoning node ends the run: a reasoning step that
    produced this state is the run's last step, so the tool node does not
    run after it. *)
Theorem submit_without_query_terminates (state : State) (last_message : Message) :
  last (messages state) = Some last_message ->
  invokes_submit last_message ->
  ~ requests_query_tool last_message ->
  get_state state = Some END /\
  next_target N_data_chatbot state = Some Finish /\
  forall budget prior w u w',
    data_chatbot_node prior w = Some (u, w') ->
    apply_update prior u = state ->
    run_from (S budget) N_data_chatbot prior w =
      mkRun Done [(N_data_chatbot, state)] state w'.
Proof.
  intros Hlast _ Hnq.
  assert (Hroute : get_state state = Some END).
  { rewrite get_state_route_of, Hlast. cbn. f_equal. now apply route_of_END. }
  split; [exact Hroute|].
  assert (Hnext : next_target N_data_chatbot state = Some Finish).
  { cbn [next_target]. rewrite Hroute. apply path_target_END. }
  split; [exact Hnext|].
  intros budget prior w u w' Hnode Hstate.
  cbn [run_from exec_node]. rewrite Hnode, Hstate, Hnext. reflexivity.
Qed.

(** ** The shape of a run *)

Lemma path_target_Finish (route : string) :
  path_target route = Some Finish -> route = END.
Proof.
  unfold path_target.
  destruct (String.eqb route (node_name N_execute_sql)); [discriminate|].
  destruct (String.eqb_spec route END); [auto|discriminate].
Qed.

Lemma path_target_Goto_route (route : string) (n : Node) :
  path_target route = Some (Goto n) -> route = "execute_sql".
Proof.
  unfold path_target.
  destruct (String.eqb_spec route (node_name N_execute_sql)) as [->|_]; [reflexivity|].
  destruct (String.eqb route END); discriminate.
Qed.

Lemma get_state_execute_sql_last (state : State) :
  get_state state = Some "execute_sql" ->
  exists m, last (messages state) = Some m /\ requests_query_tool m.
Proof.
  rewrite get_state_route_of.
  destruct (last (messages state)) as [m|]; [|discriminate].
  cbn. intros [= Hroute]. exists m. split; [reflexivity|].
  now apply route_of_execute_sql.
Qed.

Lemma next_target_follows_edge (n n' : Node) (state : State) :
  next_target n state = Some (Goto n') -> follows_edge n state n'.
Proof.
  destruct n; cbn [next_target follows_edge]; try congruence.
  destruct (get_state state) as [route|] eqn:Hroute; [|discriminate].
  intros Hpath. pose proof (path_target_Goto _ _ Hpath) as ->.
  apply path_target_Goto_route in Hpath as ->.
  split; [reflexivity|]. now apply get_state_execute_sql_last.
Qed.

Lemma run_from_head (b : nat) (n : Node) (state : State) (w : World) :
  match steps (run_from b n state w) with
  | [] => True
  | st :: _ => fst st = n
  end.
Proof.
  destruct b as [|b]; cbn [run_from]; [exact I|].
  destruct (exec_node n state w) as [[u w']|]; [|exact I].
  now destruct (next_target n (apply_update state u)) as [[n'|]|].
Qed.

Lemma run_from_follows_edges (b : nat) (n : Node) (state : State) (w : World) :
  steps_follow_edges (steps (run_from b n state w)).
Proof.
  revert n state w. induction b as [|b IH]; intros n state w; cbn [run_from];
    [exact I|].
  destruct (exec_node n state w) as [[u w']|]; [|exact I].
  destruct (next_target n (apply_update state u)) as [[n'|]|] eqn:Hnext;
    cbn [steps]; [|exact I..].
  specialize (IH n' (apply_update state u) w').
  pose proof (run_from_head b n' (apply_update state u) w') as Hhead.
  destruct (steps (run_from b n' (apply_update state u) w')) as [|st rest];
    [exact I|].
  cbn [steps_follow_edges fst snd]. split; [|exact IH].
  rewrite Hhead. now apply next_target_follows_edge.
Qed.

Lemma run_from_Done (b : nat) (n : Node) (state : State) (w : World) :
  outcome (run_from b n state w) = Done ->
  last (steps (run_from b n state w)) =
    Some (N_data_chatbot, final_state (run_from b n state w)) /\
  get_state (final_state (run_from b n state w)) = Some END.
Proof.
  revert n state w. induction b as [|b IH]; intros n state w; cbn [run_from];
    [discriminate|].
  destruct (exec_node n state w) as [[u w']|]; [|discriminate].
  destruct (next_target n (apply_update state u)) as [[n'|]|] eqn:Hnext;
    cbn [outcome steps final_state]; [| |discriminate].
  - intros Hdone. destruct (IH n' (apply_update state u) w' Hdone) as [Hlast Hroute].
    split; [|exact Hroute].
    destruct (steps (run_from b n' (apply_update state u) w')) as [|st rest];
      [discriminate|exact Hlast].
  - intros _. destruct n; cbn [next_target] in Hnext; try discriminate.
    destruct (get_state (apply_update state u)) as [route|] eqn:Hroute;
      [|discriminate].
    apply path_target_Finish in Hnext as ->. auto.
Qed.

(** X3. The nodes of an invocation run in the order the edges allow: the
    schema node first, then the reasoning node, and from there the tool
    node and the reasoning node in turns; the tool node runs only right
    after a reasoning step whose message requests the query tool.  An
    invocation that ends in [Done] ends on a reasoning step, and the
    last message of the conversation it leaves does not request the
    query tool. *)
Theorem stream_follows_edges (cfg : Config) (input : list Message)
    (memory : gmap string State) (w : World) :
  let r := fst (stream cfg input memory w) in
  head (trace r) = (if recursion_limit cfg is O then None else Some N_get_schema) /\
  steps_follow_edges (steps r) /\
  (outcome r = Done ->
   last (steps r) = Some (N_data_chatbot, final_state r) /\
   exists m, last (messages (final_state r)) = Some m /\ ~ requests_query_tool m).
Proof.
  cbn zeta. rewrite stream_run. split; [|split].
  - unfold entry_point. destruct (recursion_limit cfg) as [|b]; [reflexivity|].
    rewrite run_from_entry. reflexivity.
  - apply run_from_follows_edges.
  - intros Hdone. destruct (run_from_Done _ _ _ _ Hdone) as [Hlast Hroute].
    split; [exact Hlast|].
    rewrite get_state_route_of in Hroute.
    destruct (last (messages (final_state _))) as [m|]; [|discriminate].
    injection Hroute as Hroute. exists m. split; [reflexivity|].
    now apply route_of_END.
Qed.

(** ** The calls a run makes *)

Lemma find_tool_eqb (name : string) :
  find_tool name =
  if String.eqb "execute_query_tool" name then Some execute_query_tool_entry else None.
Proof.
  unfold find_tool, tools_by_name. cbn [List.find fst].
  now destruct (String.eqb "execute_query_tool" name).
Qed.

Lemma run_tool_calls_calls (tcs : list ToolCall) (w : World) :
  llm_calls (snd (run_tool_calls tcs w)) = llm_calls w /\
  queries_run (snd (run_tool_calls tcs w)) =
    (queries_run w ++ requested_queries (AIMessage "" tcs))%list.
Proof.
  revert w. unfold requested_queries. cbn [tool_calls_of].
  induction tcs as [|tc tcs IH]; intros w; cbn [run_tool_calls omap list_omap].
  { cbn. now rewrite app_nil_r. }
  rewrite find_tool_eqb.
  destruct (String.eqb "execute_query_tool" (tc_name tc)); [|apply IH].
  unfold execute_query_tool_entry.
  destruct (List.find _ (tc_args tc)) as [kv|]; cbn [fmap option_fmap option_map].
  - unfold execute_query_tool.
    set (w1 := mkWorld (metadata_calls w) (queries_run w ++ [snd kv]) (llm_calls w)).
    assert (Hw1 : forall text,
      (let '(msgs, w2) := run_tool_calls tcs w1 in
       (ToolMessage text (tc_name tc) (tc_id tc) :: msgs, w2)).2 =
      (run_tool_calls tcs w1).2).
    { intros text. now destruct (run_tool_calls tcs w1). }
    destruct (query_and_wait (length (queries_run w)) (snd kv));
      rewrite Hw1; destruct (IH w1) as [Hl Hq]; rewrite Hl, Hq; cbn;
      now rewrite <- app_assoc.
  - assert (Hw : forall text,
      (let '(msgs, w2) := run_tool_calls tcs w in
       (ToolMessage text (tc_name tc) (tc_id tc) :: msgs, w2)).2 =
      (run_tool_calls tcs w).2).
    { intros text. now destruct (run_tool_calls tcs w). }
    rewrite Hw. apply IH.
Qed.

Lemma requested_queries_tool_calls (m : Message) :
  requested_queries (AIMessage "" (tool_calls_of m)) = requested_queries m.
Proof. reflexivity. Qed.

Lemma tool_node_calls (state : State) (w : World) :
  llm_calls (snd (tool_node state w)) = llm_calls w /\
  queries_run (snd (tool_node state w)) = (queries_run w ++ pending_queries state)%list.
Proof.
  unfold tool_node, pending_queries.
  destruct (last (messages state)) as [m|]; cbn [from_option].
  - destruct (run_tool_calls_calls (tool_calls_of m) w) as [Hl Hq].
    rewrite requested_queries_tool_calls in Hq.
    destruct (run_tool_calls (tool_calls_of m) w). auto.
  - cbn. now rewrite app_nil_r.
Qed.

Lemma run_from_execute_sql_step (b : nat) (state : State) (w : World) :
  steps (run_from (S b) N_execute_sql state w) <> [].
Proof.
  cbn [run_from exec_node next_target]. now destruct (tool_node state w).
Qed.

Lemma removelast_cons {A : Type} (x : A) (l : list A) :
  l <> [] -> removelast (x :: l) = x :: removelast l.
Proof. now destruct l. Qed.

Lemma run_from_llm_calls (b : nat) (n : Node) (state : State) (w : World) :
  llm_calls (world_after (run_from b n state w)) =
  llm_calls w + length (List.filter is_data_chatbot (trace (run_from b n state w))).
Proof.
  unfold trace. revert n state w.
  induction b as [|b IH]; intros n state w; cbn [run_from]; [cbn; lia|].
  destruct (exec_node n state w) as [[u w']|] eqn:Hexec; [|cbn; lia].
  assert (Hw' : llm_calls w' = llm_calls w + if is_data_chatbot n then 1 else 0).
  { destruct n; cbn [exec_node is_data_chatbot] in *.
    - unfold get_schema_node, get_schema in Hexec.
      destruct (dataset_schema state); injection Hexec as _ <-; cbn; lia.
    - unfold data_chatbot_node in Hexec.
      destruct (dataset_schema state); [|discriminate].
      injection Hexec as _ <-. cbn. lia.
    - destruct (tool_node_calls state w) as [Hl _].
      destruct (tool_node state w). injection Hexec as _ <-. cbn in Hl. lia. }
  destruct (next_target n (apply_update state u)) as [[n'|]|];
    cbn [world_after steps map fst List.filter].
  - rewrite IH, Hw'. destruct (is_data_chatbot n); cbn [length]; lia.
  - rewrite Hw'. destruct (is_data_chatbot n); cbn [length]; lia.
  - rewrite Hw'. destruct (is_data_chatbot n); cbn [length]; lia.
Qed.

Lemma run_from_queries (b : nat) (n : Node) (state : State) (w : World) :
  queries_run (world_after (run_from b n state w)) =
  (queries_run w
     ++ (if is_execute_sql n then
           if b is O then [] else pending_queries state
         else [])
     ++ concat (map step_queries (removelast (steps (run_from b n state w)))))%list.
Proof.
  revert n state w.
  induction b as [|b IH]; intros n state w.
  { cbn. destruct (is_execute_sql n); now rewrite app_nil_r. }
  cbn [run_from]. destruct n; cbn [exec_node next_target is_execute_sql].
  - destruct (get_schema_node state w) as [u w'] eqn:Hnode.
    assert (Hq : queries_run w' = queries_run w).
    { unfold get_schema_node, get_schema in Hnode.
      destruct (dataset_schema state); now injection Hnode as _ <-. }
    cbn [world_after steps]. rewrite IH, Hq. cbn [is_execute_sql app].
    destruct (steps (run_from b N_data_chatbot (apply_update state u) w')) as [|st l];
      [reflexivity|].
    rewrite (removelast_cons _ (st :: l)) by discriminate. reflexivity.
  - unfold data_chatbot_node. destruct (dataset_schema state) as [schema|].
    2:{ cbn. now rewrite app_nil_r. }
    set (u := {| upd_dataset_schema := None; upd_messages := Some _ |}).
    set (w' := mkWorld _ _ _).
    destruct (get_state (apply_update state u)) as [route|].
    2:{ cbn. now rewrite app_nil_r. }
    destruct (path_target route) as [[n'|]|] eqn:Hpath.
    2,3: cbn; now rewrite app_nil_r.
    apply path_target_Goto in Hpath as ->.
    cbn [world_after steps]. rewrite IH. cbn [is_execute_sql].
    destruct b as [|b]; [cbn; now rewrite app_nil_r|].
    pose proof (run_from_execute_sql_step b (apply_update state u) w') as Hne.
    rewrite (removelast_cons _ _ Hne). cbn [map concat step_queries fst snd is_data_chatbot].
    reflexivity.
  - destruct (tool_node state w) as [u w'] eqn:Hnode.
    destruct (tool_node_calls state w) as [_ Hq]. rewrite Hnode in Hq. cbn [snd] in Hq.
    cbn [world_after steps]. rewrite IH, Hq. cbn [is_execute_sql app].
    rewrite <- app_assoc. f_equal. f_equal.
    destruct (steps (run_from b N_data_chatbot (apply_update state u) w')) as [|st l];
      [reflexivity|].
    rewrite (removelast_cons _ (st :: l)) by discriminate. reflexivity.
Qed.


(** ** What the input loop prints *)

Lemma run_tool_calls_nonempty (tcs : list ToolCall) (w : World) :
  (exists tc, In tc tcs /\ tc_name tc = "execute_query_tool") ->
  fst (run_tool_calls tcs w) <> [].
Proof.
  revert w. induction tcs as [|tc tcs IH]; intros w (tc0 & Hin & Hname);
    [destruct Hin|].
  cbn [run_tool_calls]. rewrite find_tool_eqb.
  destruct (String.eqb_spec "execute_query_tool" (tc_name tc)) as [_|Hne].
  - destruct (execute_query_tool_entry tc w) as [text w1].
    now destruct (run_tool_calls tcs w1).
  - apply IH. exists tc0. split; [|exact Hname].
    destruct Hin as [<-|Hin]; [congruence|exact Hin].
Qed.

Lemma last_app_nonempty {A : Type} (l new : list A) :
  new <> [] -> exists p, last new = Some p /\ last (l ++ new) = Some p.
Proof.
  intros Hne. destruct (last new) as [p|] eqn:Hlast.
  - exists p. split; [reflexivity|]. now rewrite last_app, Hlast.
  - apply last_None in Hlast. contradiction.
Qed.

(** The update of a node reached along the edges has a last message, and
    it is the last message of the state after the merge. *)
Lemma exec_node_printed (n : Node) (state : State) (w : World)
    (u : Update) (w' : World) :
  (n = N_execute_sql ->
   exists m, last (messages state) = Some m /\ requests_query_tool m) ->
  exec_node n state w = Some (u, w') ->
  exists p, printed_message (n, u) = Some p /\
            last (messages (apply_update state u)) = Some p.
Proof.
  intros Hpre Hexec.
  assert (Hnew : exists new, upd_messages u = Some new /\ new <> []).
  { destruct n; cbn [exec_node] in Hexec.
    - unfold get_schema_node, get_schema in Hexec.
      destruct (dataset_schema state); injection Hexec as <- _; cbn; eauto.
    - unfold data_chatbot_node in Hexec.
      destruct (dataset_schema state); [|discriminate].
      injection Hexec as <- _; cbn; eauto.
    - destruct (Hpre eq_refl) as (m & Hlast & c & tcs & tc & -> & Hin & Hname).
      unfold tool_node in Hexec. rewrite Hlast in Hexec. cbn [tool_calls_of] in Hexec.
      pose proof (run_tool_calls_nonempty tcs w (ex_intro _ tc (conj Hin Hname))) as Hne.
      destruct (run_tool_calls tcs w) as [msgs w1]. injection Hexec as <- _.
      cbn. eauto. }
  destruct Hnew as (new & Hnew & Hne).
  destruct (last_app_nonempty (messages state) new Hne) as (p & Hp & Hlast).
  exists p. unfold printed_message. cbn [snd]. rewrite Hnew.
  split; [exact Hp|]. now rewrite (apply_update_messages _ _ _ Hnew).
Qed.

Lemma stream_updates_printed (b : nat) (n : Node) (state : State) (w : World) :
  (n = N_execute_sql ->
   exists m, last (messages state) = Some m /\ requests_query_tool m) ->
  map fst (stream_updates b n state w) = trace (run_from b n state w) /\
  exists printed,
    print_outputs (stream_updates b n state w) = Some printed /\
    Forall2 (fun p st => last (messages (snd st)) = Some p)
            printed (steps (run_from b n state w)).
Proof.
  unfold trace, print_outputs. revert n state w.
  induction b as [|b IH]; intros n state w Hpre; cbn [stream_updates run_from].
  { split; [reflexivity|]. exists []. split; [reflexivity|constructor]. }
  destruct (exec_node n state w) as [[u w']|] eqn:Hexec.
  2:{ split; [reflexivity|]. exists []. split; [reflexivity|constructor]. }
  destruct (exec_node_printed n state w u w' Hpre Hexec) as (p & Hp & Hlast).
  destruct (next_target n (apply_update state u)) as [[n'|]|] eqn:Hnext; cbn [steps].
  - destruct (IH n' (apply_update state u) w') as (Htrace & printed & Hprint & Hall).
    { intros ->. apply next_target_follows_edge in Hnext.
      destruct n; cbn [follows_edge] in Hnext; [discriminate| |discriminate].
      now destruct Hnext as [_ Hm]. }
    split; [cbn [map fst]; now rewrite Htrace|].
    exists (p :: printed). split; [|now constructor].
    cbn [mapM]. rewrite Hp. cbn. now rewrite Hprint.
  - split; [reflexivity|]. exists [p]. split; [|repeat constructor; exact Hlast].
    cbn [mapM]. rewrite Hp. reflexivity.
  - split; [reflexivity|]. exists [p]. split; [|repeat constructor; exact Hlast].
    cbn [mapM]. rewrite Hp. reflexivity.
Qed.

(** X5. The body of the input loop never raises on an output of the
    graph: every update streamed during an invocation has a non-empty
    [messages] list, so indexing it with [-1] succeeds.  The loop prints
    one message per node executed, and the message printed for a step is
    the last message of the conversation after that step. *)
Theorem input_loop_prints_every_step (cfg : Config) (input : list Message)
    (memory : gmap string State) (w : World) :
  let r := fst (stream cfg input memory w) in
  let outputs :=
    stream_updates (recursion_limit cfg) entry_point (input_state cfg input memory) w in
  map fst outputs = trace r /\
  exists printed,
    print_outputs outputs = Some printed /\
    length printed = length (steps r) /\
    Forall2 (fun p st => last (messages (snd st)) = Some p) printed (steps r).
Proof.
  cbn zeta. rewrite stream_run.
  destruct (stream_updates_printed (recursion_limit cfg) entry_point
              (input_state cfg input memory) w) as (Htrace & printed & Hprint & Hall);
    [discriminate|].
  split; [exact Htrace|]. exists printed. split; [exact Hprint|].
  split; [now apply Forall2_length in Hall|exact Hall].
Qed.

(** ** Turns *)

(** A node adds no human message, given a model that answers with
    assistant messages. *)
Lemma exec_node_human_messages (n : Node) (state : State) (w : World)
    (u : Update) (w' : World) :
  (forall k prompt, isinstance_AIMessage (llm_invoke k prompt) = true) ->
  exec_node n state w = Some (u, w') ->
  List.filter isinstance_HumanMessage (messages (apply_update state u)) =
  List.filter isinstance_HumanMessage (messages state).
Proof.
  intros Hllm Hexec.
  assert (Hnew : exists new, upd_messages u = Some new /\
                             List.filter isinstance_HumanMessage new = []).
  { destruct n; cbn [exec_node] in Hexec.
    - unfold get_schema_node, get_schema in Hexec.
      destruct (dataset_schema state); injection Hexec as <- _; cbn; eauto.
    - unfold data_chatbot_node in Hexec.
      destruct (dataset_schema state); [|discriminate].
      injection Hexec as <- _. eexists. split; [reflexivity|].
      cbn [List.filter].
      specialize (Hllm (llm_calls w) (SystemMessage (sys_message s) :: messages state)).
      now destruct (llm_invoke _ _).
    - unfold tool_node in Hexec.
      set (tcs := match last (messages state) with
                  | Some m => tool_calls_of m
                  | None => []
                  end) in Hexec.
      assert (Hmsgs : List.filter isinstance_HumanMessage (run_tool_calls tcs w).1 = []).
      { generalize tcs w. clear. intros tcs.
        induction tcs as [|tc tcs IH]; intros w; cbn [run_tool_calls]; [reflexivity|].
        destruct (find_tool (tc_name tc)) as [tool|]; [|apply IH].
        destruct (tool tc w) as [text w1]. specialize (IH w1).
        destruct (run_tool_calls tcs w1). exact IH. }
      destruct (run_tool_calls tcs w) as [msgs w1]. injection Hexec as <- _.
      cbn. eauto. }
  destruct Hnew as (new & Hnew & Hfilter).
  rewrite (apply_update_messages _ _ _ Hnew), List.filter_app, Hfilter.
  apply app_nil_r.
Qed.

Lemma run_from_human_messages (b : nat) (n : Node) (state : State) (w : World) :
  (forall k prompt, isinstance_AIMessage (llm_invoke k prompt) = true) ->
  List.filter isinstance_HumanMessage (messages (final_state (run_from b n state w))) =
  List.filter isinstance_HumanMessage (messages state).
Proof.
  intros Hllm. revert n state w.
  induction b as [|b IH]; intros n state w; cbn [run_from]; [reflexivity|].
  destruct (exec_node n state w) as [[u w']|] eqn:Hexec; [|reflexivity].
  pose proof (exec_node_human_messages n state w u w' Hllm Hexec) as Hstep.
  destruct (next_target n (apply_update state u)) as [[n'|]|];
    cbn [final_state]; [|exact Hstep..].
  now rewrite IH.
Qed.

Lemma loaded_state_stream (cfg : Config) (input : list Message)
    (memory : gmap string State) (w : World) :
  loaded_state cfg (snd (stream cfg input memory w)) =
  final_state (fst (stream cfg input memory w)).
Proof. unfold loaded_state. now rewrite stream_memory. Qed.

(** X6. The input loop records what the user typed, up to the run that
    raises.  With a model that answers with assistant messages and a
    non-zero step budget, the human messages of the thread's checkpoint
    when the loop is left are those it held before followed by one
    [HumanMessage] per input sent, in order; the inputs sent are a prefix
    of those typed before the first [q] or [Q].  They are all of them
    when the loop is left by the [break].  When it is left by an
    exception, that is the exception of the run of the last input sent:
    the loop ends with the checkpoint and the world that run left, and
    what was typed after it never reaches the graph. *)
Theorem chat_loop_records_inputs (cfg : Config) (users : list string)
    (memory : gmap string State) (w : World) :
  (forall k prompt, isinstance_AIMessage (llm_invoke k prompt) = true) ->
  recursion_limit cfg <> 0 ->
  exists sent later,
    inputs_before_quit users = (sent ++ later)%list /\
    List.filter isinstance_HumanMessage
      (messages (loaded_state cfg (fst (chat_loop cfg users memory w)))) =
    (List.filter isinstance_HumanMessage (messages (loaded_state cfg memory))
       ++ map HumanMessage sent)%list /\
    match chat_loop_outcome cfg users memory w with
    | Done => later = []
    | raised =>
        exists earlier user memory0 w0,
          sent = (earlier ++ [user])%list /\
          let r := stream cfg [HumanMessage user] memory0 w0 in
          outcome (fst r) = raised /\
          chat_loop cfg users memory w = (snd r, world_after (fst r))
    end.
Proof.
  intros Hllm _. revert memory w.
  induction users as [|user rest IH]; intros memory w;
    cbn [chat_loop chat_loop_outcome inputs_before_quit].
  { exists [], []. cbn [map fst]. now rewrite !app_nil_r. }
  destruct (String.eqb user "q" || String.eqb user "Q"); cbn [map fst].
  { exists [], []. cbn [map]. now rewrite !app_nil_r. }
  pose proof (loaded_state_stream cfg [HumanMessage user] memory w) as Hload.
  pose proof (run_from_human_messages (recursion_limit cfg) entry_point
                (input_state cfg [HumanMessage user] memory) w Hllm) as Hrun.
  rewrite <- stream_run in Hrun.
  destruct (stream cfg [HumanMessage user] memory w) as [r memory'] eqn:Hstream.
  cbn [fst snd] in Hload, Hrun.
  assert (Hhere : List.filter isinstance_HumanMessage (messages (loaded_state cfg memory')) =
                  (List.filter isinstance_HumanMessage (messages (loaded_state cfg memory))
                     ++ [HumanMessage user])%list).
  { rewrite Hload, Hrun. unfold input_state.
    cbn [apply_update messages upd_messages]. unfold add_messages.
    now rewrite List.filter_app. }
  destruct (outcome r) eqn:Ho.
  - destruct (IH memory' (world_after r)) as (sent & later & Hsplit & Hrec & Hend).
    exists (user :: sent), later.
    split; [now rewrite Hsplit|].
    split; [rewrite Hrec, Hhere; cbn [map]; now rewrite <- app_assoc|].
    destruct (chat_loop_outcome cfg rest memory' (world_after r)); [exact Hend|..];
      destruct Hend as (earlier & user0 & memory0 & w0 & -> & Hraised);
      now exists (user :: earlier), user0, memory0, w0.
  - exists [user], (inputs_before_quit rest).
    split; [reflexivity|]. split; [exact Hhere|].
    exists [], user, memory, w. rewrite Hstream. cbn [fst snd]. auto.
  - exists [user], (inputs_before_quit rest).
    split; [reflexivity|]. split; [exact Hhere|].
    exists [], user, memory, w. rewrite Hstream. cbn [fst snd]. auto.
Qed.

(** ** The text the query tool returns *)

Lemma all_printable_app (s t : string) :
  all_printable (s +:+ t) = all_printable s && all_printable t.
Proof.
  induction s as [|c s IH]; [reflexivity|].
  rewrite append_cons. cbn [all_printable]. rewrite IH. apply andb_assoc.
Qed.

Lemma escape_char_printable (c : ascii) : all_printable (escape_char c) = true.
Proof. destruct c as [[] [] [] [] [] [] [] []]; reflexivity. Qed.

Lemma escape_printable (s : string) : all_printable (escape s) = true.
Proof.
  induction s as [|c s IH]; [reflexivity|].
  cbn [escape]. now rewrite all_printable_app, escape_char_printable, IH.
Qed.

Lemma json_dumps_str_printable (s : string) :
  all_printable (json_dumps (PyStr s)) = true.
Proof.
  unfold json_dumps, encode_basestring_ascii. cbn [all_printable].
  rewrite all_printable_app, escape_printable. reflexivity.
Qed.

Lemma json_dumps_dict1_printable (k v : string) :
  all_printable (json_dumps (PyDict [(k, v)])) = true.
Proof.
  rewrite json_dumps_dict1. cbn [all_printable].
  rewrite all_printable_app, escape_printable. cbn [all_printable].
  rewrite all_printable_app, escape_printable. reflexivity.
Qed.

(** X8. Whatever the query, the backend's answer and the text of the rows
    or of the error, the result of [execute_query_tool] is one line of
    printable ASCII that [json.loads] accepts.  It decodes to a [str], the
    printed rows, when the query succeeded, and to the one-key error
    object when it raised, so a caller can tell the two apart by the kind
    of the decoded value: a [str] never stands for a failure. *)
Theorem execute_query_tool_payload (query : string) (w : World) :
  let payload := fst (execute_query_tool query w) in
  all_printable payload = true /\
  match query_and_wait (length (queries_run w)) query with
  | RowsReturned rows => json_loads payload = Some (PyStr (str_rows rows))
  | QueryRaised e =>
      json_loads payload = Some (PyDict [("BigQuery error", "BigQuery Error: " +:+ e)])
  end /\
  ((exists s, json_loads payload = Some (PyStr s)) <->
   (exists rows, query_and_wait (length (queries_run w)) query = RowsReturned rows)).
Proof.
  cbn zeta. unfold execute_query_tool, str.
  destruct (query_and_wait (length (queries_run w)) query) as [rows|e]; cbn [fst].
  - split; [apply json_dumps_str_printable|].
    split; [apply json_loads_dumps_str|].
    split; [eauto|]. intros _. exists (str_rows rows). apply json_loads_dumps_str.
  - split; [apply json_dumps_dict1_printable|].
    split; [apply json_loads_dumps_dict1|].
    rewrite json_loads_dumps_dict1.
    split; [intros [s Hs]; discriminate|intros [rows Hrows]; discriminate].
Qed.

(** ** Loading the sample data *)

Lemma table_id_of_inj (t1 t2 : string) : table_id_of t1 = table_id_of t2 -> t1 = t2.
Proof.
  unfold table_id_of. intros H.
  apply (String.app_inj DATASET_ID) in H. now apply (String.app_inj ".") in H.
Qed.

Lemma load_tables_lookup (todo : list string) (dataset : gmap string Table)
    (id : string) :
  fst (load_tables todo dataset) !! id =
  match dataset !! id with
  | Some t => Some t
  | None =>
      (fun table => load_csv (uri_of table))
        <$> List.find (fun table => String.eqb (table_id_of table) id) todo
  end.
Proof.
  revert dataset. induction todo as [|table rest IH]; intros dataset;
    cbn [load_tables List.find].
  { cbn. now destruct (dataset !! id). }
  destruct (dataset !! table_id_of table) as [t0|] eqn:Hhead.
  - specialize (IH dataset). destruct (load_tables rest dataset) as [d printed].
    cbn [fst] in *. rewrite IH.
    destruct (dataset !! id) as [t|] eqn:Hid; [reflexivity|].
    destruct (String.eqb_spec (table_id_of table) id) as [Heq|_]; [congruence|reflexivity].
  - specialize (IH (<[table_id_of table := load_csv (uri_of table)]> dataset)).
    destruct (load_tables rest _) as [d printed]. cbn [fst] in *. rewrite IH.
    destruct (String.eqb_spec (table_id_of table) id) as [<-|Hne].
    + rewrite lookup_insert_eq, Hhead. reflexivity.
    + rewrite lookup_insert_ne by exact Hne. reflexivity.
Qed.

Lemma find_table_id (todo : list string) (table : string) :
  In table todo ->
  List.find (fun t => String.eqb (table_id_of t) (table_id_of table)) todo = Some table.
Proof.
  induction todo as [|t rest IH]; intros Hin; [destruct Hin|]. cbn [List.find].
  destruct (String.eqb_spec (table_id_of t) (table_id_of table)) as [Heq|Hne].
  - f_equal. now apply table_id_of_inj.
  - apply IH. destruct Hin as [->|Hin]; [congruence|exact Hin].
Qed.

Lemma find_table_id_None (todo : list string) (id : string) :
  ~ In id (map table_id_of todo) ->
  List.find (fun t => String.eqb (table_id_of t) id) todo = None.
Proof.
  induction todo as [|t rest IH]; intros Hnin; [reflexivity|]. cbn [List.find].
  destruct (String.eqb_spec (table_id_of t) id) as [Heq|_].
  - contradict Hnin. left. exact Heq.
  - apply IH. contradict Hnin. now right.
Qed.

Lemma load_tables_printed (todo : list string) (dataset : gmap string Table) :
  length (snd (load_tables todo dataset)) = length todo.
Proof.
  revert dataset. induction todo as [|table rest IH]; intros dataset;
    cbn [load_tables]; [reflexivity|].
  destruct (dataset !! table_id_of table).
  - specialize (IH dataset). destruct (load_tables rest dataset). cbn in *. lia.
  - specialize (IH (<[table_id_of table := load_csv (uri_of table)]> dataset)).
    destruct (load_tables rest _). cbn in *. lia.
Qed.

(** X9. The data loading loop creates what is missing and nothing else.
    A table the dataset already holds is left as it is, listed or not; a
    listed table that is missing is created from its CSV object, named
    after the table; an id that is neither held nor listed stays absent;
    and one line is printed per listed table. *)
Theorem load_tables_creates_missing (todo : list string) (dataset : gmap string Table) :
  let after := fst (load_tables todo dataset) in
  (forall id t, dataset !! id = Some t -> after !! id = Some t) /\
  (forall table,
     In table todo -> dataset !! table_id_of table = None ->
     after !! table_id_of table = Some (load_csv (uri_of table))) /\
  (forall id,
     dataset !! id = None -> ~ In id (map table_id_of todo) -> after !! id = None) /\
  length (snd (load_tables todo dataset)) = length todo.
Proof.
  cbn zeta. split; [|split; [|split]].
  - intros id t Hid. now rewrite load_tables_lookup, Hid.
  - intros table Hin Hid. now rewrite load_tables_lookup, Hid, find_table_id.
  - intros id Hid Hnin. now rewrite load_tables_lookup, Hid, find_table_id_None.
  - apply load_tables_printed.
Qed.

Lemma load_tables_all_present (todo : list string) (dataset : gmap string Table) :
  (forall table, In table todo -> is_Some (dataset !! table_id_of table)) ->
  load_tables todo dataset = (dataset, map (fun table => skip_line (table_id_of table)) todo).
Proof.
  induction todo as [|table rest IH]; intros Hall; cbn [load_tables map];
    [reflexivity|].
  destruct (Hall table) as [t Ht]; [now left|]. rewrite Ht.
  rewrite IH; [reflexivity|]. intros table' Hin. apply Hall. now right.
Qed.

(** X10. Running the data loading cell again is harmless: after one run
    every listed table exists, and a second run starts no load job,
    leaves the dataset as the first run left it, and prints the skip
    line for each listed table. *)
Theorem load_tables_idempotent (todo : list string) (dataset : gmap string Table) :
  let after := fst (load_tables todo dataset) in
  (forall table, In table todo -> is_Some (after !! table_id_of table)) /\
  load_tables todo after =
    (after, map (fun table => skip_line (table_id_of table)) todo).
Proof.
  cbn zeta.
  assert (Hall : forall table, In table todo ->
            is_Some (fst (load_tables todo dataset) !! table_id_of table)).
  { intros table Hin. rewrite load_tables_lookup.
    destruct (dataset !! table_id_of table); [eauto|].
    rewrite find_table_id by exact Hin. cbn. eauto. }
  split; [exact Hall|]. now apply load_tables_all_present.
Qed.

(** ** What a run adds to the conversation *)

Lemma run_tool_calls_messages (tcs : list ToolCall) (w : World) :
  Forall (fun m => assistant_or_tool m = true) (fst (run_tool_calls tcs w)).
Proof.
  revert w. induction tcs as [|tc tcs IH]; intros w; cbn [run_tool_calls];
    [constructor|].
  destruct (find_tool (tc_name tc)) as [tool|]; [|apply IH].
  destruct (tool tc w) as [text w1]. specialize (IH w1).
  destruct (run_tool_calls tcs w1). cbn [fst] in *. now constructor.
Qed.

Lemma exec_node_adds (n : Node) (state : State) (w : World) (u : Update) (w' : World) :
  (forall k prompt, isinstance_AIMessage (llm_invoke k prompt) = true) ->
  exec_node n state w = Some (u, w') ->
  exists new,
    messages (apply_update state u) = (messages state ++ new)%list /\
    Forall (fun m => assistant_or_tool m = true) new.
Proof.
  intros Hllm Hexec.
  assert (Hnew : exists new, upd_messages u = Some new /\
                             Forall (fun m => assistant_or_tool m = true) new).
  { destruct n; cbn [exec_node] in Hexec.
    - unfold get_schema_node, get_schema in Hexec.
      destruct (dataset_schema state); injection Hexec as <- _;
        eexists; (split; [reflexivity|]); now repeat constructor.
    - unfold data_chatbot_node in Hexec.
      destruct (dataset_schema state) as [schema|]; [|discriminate].
      injection Hexec as <- _. eexists. split; [reflexivity|].
      specialize (Hllm (llm_calls w) (SystemMessage (sys_message schema) :: messages state)).
      repeat constructor. now destruct (llm_invoke _ _).
    - unfold tool_node in Hexec.
      set (tcs := match last (messages state) with
                  | Some m => tool_calls_of m
                  | None => []
                  end) in Hexec.
      pose proof (run_tool_calls_messages tcs w) as Hmsgs.
      destruct (run_tool_calls tcs w) as [msgs w1]. injection Hexec as <- _.
      cbn. eauto. }
  destruct Hnew as (new & Hnew & Hall). exists new.
  split; [now apply apply_update_messages|exact Hall].
Qed.

Lemma run_from_adds (b : nat) (n : Node) (state : State) (w : World) :
  (forall k prompt, isinstance_AIMessage (llm_invoke k prompt) = true) ->
  exists added,
    messages (final_state (run_from b n state w)) = (messages state ++ added)%list /\
    Forall (fun m => assistant_or_tool m = true) added.
Proof.
  intros Hllm. revert n state w.
  induction b as [|b IH]; intros n state w; cbn [run_from].
  { exists []. cbn. now rewrite app_nil_r. }
  destruct (exec_node n state w) as [[u w']|] eqn:Hexec.
  2:{ exists []. cbn. now rewrite app_nil_r. }
  destruct (exec_node_adds n state w u w' Hllm Hexec) as (new & Hnew & Hall).
  destruct (next_target n (apply_update state u)) as [[n'|]|]; cbn [final_state];
    [|now exists new..].
  destruct (IH n' (apply_update state u) w') as (added & Hadded & Hall').
  exists (new ++ added)%list. split.
  - now rewrite Hadded, Hnew, <- app_assoc.
  - now apply Forall_app.
Qed.

(** X13. The prompt is rebuilt for every call and never stored: with a
    model that answers with assistant messages, everything an invocation
    adds to the thread's messages after the input is an assistant message
    or a tool message.  The system message that the reasoning node puts in
    front of the history does not enter the conversation. *)
Theorem stream_adds_assistant_and_tool_messages (cfg : Config) (input : list Message)
    (memory : gmap string State) (w : World) :
  (forall k prompt, isinstance_AIMessage (llm_invoke k prompt) = true) ->
  exists added,
    messages (final_state (fst (stream cfg input memory w))) =
      (messages (loaded_state cfg memory) ++ input ++ added)%list /\
    Forall (fun m => assistant_or_tool m = true) added.
Proof.
  intros Hllm. rewrite stream_run.
  destruct (run_from_adds (recursion_limit cfg) entry_point
              (input_state cfg input memory) w Hllm) as (added & Hadded & Hall).
  exists added. split; [|exact Hall].
  rewrite Hadded. unfold input_state. cbn [apply_update messages upd_messages].
  unfold add_messages. now rewrite <- app_assoc.
Qed.

(** ** The cached schema *)

Lemma stream_first_fetch (tid : string) (b : nat) (input : list Message)
    (memory : gmap string State) (w : World) :
  let cfg := mkConfig tid (S b) in
  cached_schema cfg memory = None ->
  cached_schema cfg (snd (stream cfg input memory w)) =
    Some (list_tables_schema (metadata_calls w)) /\
  metadata_calls (world_after (fst (stream cfg input memory w))) = S (metadata_calls w).
Proof.
  cbn zeta. intros Hnone.
  rewrite cached_schema_stream, stream_run. cbn [recursion_limit]. unfold entry_point.
  rewrite run_from_entry. cbn [final_state world_after].
  set (state := input_state (mkConfig tid (S b)) input memory).
  assert (Hs : dataset_schema state = None).
  { unfold state. now rewrite input_state_schema. }
  pose proof (get_schema_node_sets_schema state w) as Hset.
  pose proof (get_schema_node_calls state w) as Hcalls.
  rewrite Hs in Hset, Hcalls.
  destruct (run_from_cached b N_data_chatbot _ (snd (get_schema_node state w)) _ Hset)
    as (Hc & Hf & _).
  split; [exact Hf|congruence].
Qed.

(** X12. The schema a thread works from is the one fetched on its first
    turn.  An input loop that starts on a thread without a schema and
    sends at least one input issues exactly one metadata call, on that
    first input, and whatever follows the thread's cached schema stays the
    text [get_schema] returned then: it is never refreshed. *)
Theorem schema_cache_is_first_fetch (cfg : Config) (user : string)
    (rest : list string) (memory : gmap string State) (w : World) :
  cached_schema cfg memory = None ->
  recursion_limit cfg <> 0 ->
  quits user = false ->
  cached_schema cfg (fst (chat_loop cfg (user :: rest) memory w)) =
    Some (fst (get_schema w)) /\
  metadata_calls (snd (chat_loop cfg (user :: rest) memory w)) = S (metadata_calls w).
Proof.
  intros Hnone Hlimit Hquit. cbn [chat_loop]. unfold quits in Hquit. rewrite Hquit.
  destruct cfg as [tid [|b]]; [now contradict Hlimit|].
  destruct (stream_first_fetch tid b [HumanMessage user] memory w Hnone) as [Hcached Hcalls].
  destruct (stream (mkConfig tid (S b)) [HumanMessage user] memory w) as [r memory'].
  cbn [fst snd] in Hcached, Hcalls.
  destruct (outcome r); [|cbn [fst snd]; auto..].
  destruct (chat_loop_cached (mkConfig tid (S b)) rest memory' (world_after r) _ Hcached)
    as [Hc Hm].
  split; [exact Hm|congruence].
Qed.

(** ** Indented JSON text *)

Lemma append_nil_r (s : string) : s +:+ "" = s.
Proof. induction s as [|c s IH]; [reflexivity|]. rewrite append_cons. now rewrite IH. Qed.

Lemma length_append (s t : string) :
  String.length (s +:+ t) = String.length s + String.length t.
Proof.
  induction s as [|c s IH]; [reflexivity|]. rewrite append_cons. cbn. now rewrite IH.
Qed.

Lemma strip_prefix_app (p r : string) : strip_prefix p (p +:+ r) = Some r.
Proof.
  induction p as [|c p IH]; [reflexivity|].
  rewrite append_cons. cbn [strip_prefix]. now rewrite Ascii.eqb_refl.
Qed.

Lemma skip_whitespace_spaces (n : nat) (s : string) :
  skip_whitespace (spaces n +:+ s) = skip_whitespace s.
Proof. induction n as [|n IH]; [reflexivity|]. cbn [spaces]. rewrite append_cons. exact IH. Qed.

Lemma skip_whitespace_newline_indent (level : nat) (s : string) :
  skip_whitespace (newline_indent level +:+ s) = skip_whitespace s.
Proof.
  unfold newline_indent. rewrite append_cons. cbn [skip_whitespace].
  change (is_whitespace "010") with true. cbv iota. apply skip_whitespace_spaces.
Qed.

Lemma encode_indent_head (level : nat) (v : Json) :
  exists c r, encode_indent level v = String c r /\ starts_value c = true.
Proof.
  destruct v as [|[]|s|[|x xs]|[|m ms]]; cbn [encode_indent];
    unfold encode_basestring_ascii; rewrite ?append_cons; eauto.
Qed.

Lemma starts_value_not_whitespace (c : ascii) :
  starts_value c = true -> is_whitespace c = false /\ Ascii.eqb c "]"%char = false.
Proof.
  unfold starts_value. intros H.
  repeat (apply orb_true_iff in H as [H|H]);
    apply Ascii.eqb_eq in H; subst; split; reflexivity.
Qed.

Lemma skip_whitespace_value (level : nat) (v : Json) (rest : string) :
  skip_whitespace (encode_indent level v +:+ rest) = encode_indent level v +:+ rest.
Proof.
  destruct (encode_indent_head level v) as (c & r & -> & Hc).
  apply starts_value_not_whitespace in Hc as [Hws _].
  rewrite append_cons. cbn [skip_whitespace]. now rewrite Hws.
Qed.

Ltac norm_append :=
  repeat (rewrite append_assoc || rewrite append_cons || rewrite append_nil_l).

Lemma scan_array_items (scan_value : string -> option (Json * string))
    (level outer : nat) (xs : list Json) :
  forall (x : Json) (fuel : nat) (rest : string),
    (forall v, In v (x :: xs) -> forall rest',
       scan_value (encode_indent level v +:+ rest') = Some (v, rest')) ->
    length (x :: xs) <= fuel ->
    scan_array scan_value fuel
      (encode_indent level x +:+ array_tail level xs
         +:+ newline_indent outer +:+ String "]" rest) = Some (x :: xs, rest).
Proof.
  induction xs as [|y ys IH]; intros x fuel rest Hvalue Hfuel;
    (destruct fuel as [|fuel]; [cbn in Hfuel; lia|]); cbn [scan_array].
  - rewrite Hvalue by now left. unfold array_tail. cbn [map concat_strings fold_right].
    rewrite append_nil_l, skip_whitespace_newline_indent.
    cbn. reflexivity.
  - rewrite Hvalue by now left. unfold array_tail. cbn [map concat_strings fold_right].
    fold (concat_strings (map (fun y => "," +:+ newline_indent level +:+ encode_indent level y) ys)).
    fold (array_tail level ys).
    rewrite !append_assoc, !append_cons, !append_nil_l.
    cbn [skip_whitespace]. change (is_whitespace ",") with false. cbv iota.
    change (Ascii.eqb "," "]") with false. change (Ascii.eqb "," ",") with true. cbv iota.
    rewrite skip_whitespace_newline_indent, skip_whitespace_value.
    rewrite IH; [reflexivity| |cbn in *; lia].
    intros v Hin. apply Hvalue. now right.
Qed.

Lemma scan_object_members (scan_value : string -> option (Json * string))
    (level outer : nat) (ms : list (string * Json)) :
  forall (m : string * Json) (fuel : nat) (rest : string),
    (forall kv, In kv (m :: ms) -> forall rest',
       scan_value (encode_indent level (snd kv) +:+ rest') = Some (snd kv, rest')) ->
    length (m :: ms) <= fuel ->
    scan_object scan_value fuel
      (escape (fst m) +:+ String dquote (String ":" (String " "
         (encode_indent level (snd m) +:+ object_tail level ms
            +:+ newline_indent outer +:+ String "}" rest)))) = Some (m :: ms, rest).
Proof.
  induction ms as [|m' ms IH]; intros [k v] fuel rest Hvalue Hfuel;
    (destruct fuel as [|fuel]; [cbn in Hfuel; lia|]); cbn [scan_object fst snd].
  - rewrite scanstring_escape.
    cbn -[scanstring scan_object encode_indent newline_indent].
    rewrite skip_whitespace_value, (Hvalue (k, v)) by now left.
    unfold object_tail. cbn [map concat_strings fold_right].
    rewrite append_nil_l, skip_whitespace_newline_indent. cbn. reflexivity.
  - rewrite scanstring_escape.
    cbn -[scanstring scan_object encode_indent newline_indent].
    rewrite skip_whitespace_value, (Hvalue (k, v)) by now left.
    unfold object_tail. cbn [map concat_strings fold_right].
    fold (concat_strings (map (fun kv => "," +:+ newline_indent level
                      +:+ encode_basestring_ascii (fst kv) +:+ ": "
                      +:+ encode_indent level (snd kv)) ms)).
    fold (object_tail level ms).
    unfold encode_basestring_ascii.
    norm_append.
    cbn [skip_whitespace]. change (is_whitespace ",") with false. cbv iota.
    change (Ascii.eqb "," "}") with false. change (Ascii.eqb "," ",") with true. cbv iota.
    rewrite skip_whitespace_newline_indent.
    norm_append.
    cbn [skip_whitespace]. change (is_whitespace dquote) with false. cbv iota.
    change (Ascii.eqb dquote dquote) with true. cbv iota.
    norm_append.
    rewrite (IH m'); [reflexivity| |cbn in *; lia].
    intros kv Hin. apply Hvalue. now right.
Qed.

Lemma json_size_pos (v : Json) : 1 <= json_size v.
Proof. destruct v; cbn [json_size]; lia. Qed.

Lemma list_sum_bounds {A : Type} (f : A -> nat) (l : list A) :
  (forall x, 1 <= f x) ->
  length l <= list_sum (map f l) /\ forall x, In x l -> f x <= list_sum (map f l).
Proof.
  intros Hpos. induction l as [|y l [IHlen IHin]].
  - split; [cbn; lia|]. intros x [].
  - cbn [map length].
    change (list_sum (f y :: map f l)) with (f y + list_sum (map f l)).
    specialize (Hpos y). split; [lia|].
    intros x [<-|Hin]; [lia|]. specialize (IHin x Hin). lia.
Qed.

Lemma scan_once_encode (fuel : nat) :
  forall (v : Json) (level : nat) (rest : string),
    json_size v <= fuel ->
    scan_once fuel (encode_indent level v +:+ rest) = Some (v, rest).
Proof.
  induction fuel as [|fuel IH]; intros v level rest Hsize.
  { pose proof (json_size_pos v). lia. }
  destruct v as [|[]|s|[|x xs]|[|m ms]]; try reflexivity.
  - cbn [encode_indent]. unfold encode_basestring_ascii. norm_append.
    cbn [scan_once]. change (Ascii.eqb dquote dquote) with true. cbv iota.
    now rewrite scanstring_escape.
  - cbn [encode_indent]. fold (array_tail (S level) xs). norm_append.
    cbn [scan_once]. change (Ascii.eqb "[" dquote) with false.
    change (Ascii.eqb "[" "{") with false. change (Ascii.eqb "[" "[") with true.
    cbv iota. rewrite skip_whitespace_newline_indent, skip_whitespace_value.
    destruct (encode_indent_head (S level) x) as (c & r & Hx & Hc).
    apply starts_value_not_whitespace in Hc as [_ Hc].
    rewrite Hx, append_cons, Hc, <- append_cons, <- Hx.
    cbn [json_size] in Hsize.
    destruct (list_sum_bounds json_size (x :: xs) json_size_pos) as [Hlen Hin].
    rewrite (scan_array_items (scan_once fuel) (S level) level xs x fuel rest);
      [reflexivity| |lia].
    intros v Hv rest'. apply IH. specialize (Hin v Hv). lia.
  - destruct m as [k v]. cbn [encode_indent fst snd].
    fold (object_tail (S level) ms). unfold encode_basestring_ascii. norm_append.
    cbn [scan_once]. change (Ascii.eqb "{" dquote) with false.
    change (Ascii.eqb "{" "{") with true. cbv iota.
    rewrite skip_whitespace_newline_indent. norm_append.
    cbn [skip_whitespace]. change (is_whitespace dquote) with false. cbv iota.
    change (Ascii.eqb dquote "}") with false. change (Ascii.eqb dquote dquote) with true.
    cbv iota. cbn [json_size] in Hsize.
    destruct (list_sum_bounds (fun kv : string * Json => json_size (snd kv)) ((k, v) :: ms)
                (fun kv => json_size_pos (snd kv))) as [Hlen Hin].
    pose proof (scan_object_members (scan_once fuel) (S level) level ms (k, v) fuel rest)
      as Hmembers.
    cbn [fst snd] in Hmembers. rewrite Hmembers; [reflexivity| |lia].
    intros kv Hkv rest'. apply IH. specialize (Hin kv Hkv). cbn beta in Hin. lia.
Qed.

Lemma concat_strings_length_le (l : list string) : 0 <= String.length (concat_strings l).
Proof. lia. Qed.

Lemma json_size_le_length (n : nat) :
  forall (v : Json) (level : nat),
    json_size v <= n -> json_size v <= String.length (encode_indent level v).
Proof.
  induction n as [|n IH]; intros v level Hsize.
  { pose proof (json_size_pos v). lia. }
  destruct v as [|[]|s|[|x xs]|[|m ms]]; try (cbn; lia).
  - cbn [encode_indent json_size] in *. fold (array_tail (S level) xs).
    rewrite !length_append. cbn [String.length].
    assert (Hall : forall l, list_sum (map json_size l) <= n ->
              list_sum (map json_size l) <= String.length (array_tail (S level) l)).
    { intros l. induction l as [|y l IHl]; intros Hl; [cbn; lia|].
      cbn [map] in *.
      change (list_sum (json_size y :: map json_size l))
        with (json_size y + list_sum (map json_size l)) in *.
      unfold array_tail. cbn [map concat_strings fold_right].
      fold (concat_strings (map (fun y => "," +:+ newline_indent (S level)
                                            +:+ encode_indent (S level) y) l)).
      fold (array_tail (S level) l).
      rewrite !length_append.
      specialize (IH y (S level)). specialize (IHl). lia. }
    cbn [map] in *.
    change (list_sum (json_size x :: map json_size xs))
      with (json_size x + list_sum (map json_size xs)) in *.
    specialize (IH x (S level)). specialize (Hall xs). lia.
  - destruct m as [k v]. cbn [encode_indent json_size fst snd] in *.
    fold (object_tail (S level) ms).
    rewrite !length_append. cbn [String.length].
    assert (Hall : forall l : list (string * Json),
              list_sum (map (fun kv => json_size (snd kv)) l) <= n ->
              list_sum (map (fun kv => json_size (snd kv)) l)
                <= String.length (object_tail (S level) l)).
    { intros l. induction l as [|[k' y] l IHl]; intros Hl; [cbn; lia|].
      cbn [map snd] in *.
      change (list_sum (json_size y :: map (fun kv : string * Json => json_size (snd kv)) l))
        with (json_size y + list_sum (map (fun kv : string * Json => json_size (snd kv)) l)) in *.
      unfold object_tail. cbn [map concat_strings fold_right fst snd].
      fold (concat_strings (map (fun kv : string * Json => "," +:+ newline_indent (S level)
                      +:+ encode_basestring_ascii (fst kv) +:+ ": "
                      +:+ encode_indent (S level) (snd kv)) l)).
      fold (object_tail (S level) l).
      rewrite !length_append.
      specialize (IH y (S level)). lia. }
    cbn [map snd] in *.
    change (list_sum (json_size v :: map (fun kv : string * Json => json_size (snd kv)) ms))
      with (json_size v + list_sum (map (fun kv : string * Json => json_size (snd kv)) ms)) in *.
    specialize (IH v (S level)). specialize (Hall ms). lia.
Qed.

(** [json.loads] reads back what [json.dumps] with [indent=2] wrote. *)
Lemma json_loads_value_dumps_indent (v : Json) :
  json_loads_value (json_dumps_indent v) = Some v.
Proof.
  unfold json_loads_value, json_dumps_indent.
  pose proof (skip_whitespace_value 0 v "") as Hskip.
  pose proof (scan_once_encode (String.length (encode_indent 0 v)) v 0 ""
                (json_size_le_length (json_size v) v 0 (Nat.le_refl _))) as Hscan.
  rewrite append_nil_r in Hskip, Hscan. now rewrite Hskip, Hscan.
Qed.

(** X11. The text [get_schema] returns is JSON that [json.loads] reads
    back to the object it was dumped from: one entry per table listed, in
    listing order, under its fully qualified name and with the API
    representation of each of its fields.  So the text alone determines
    which tables and which fields it describes. *)
Theorem get_schema_text_decodes (listing : list TableListItem)
    (api_repr : string -> list Json) :
  json_loads_value (get_schema_text listing api_repr) =
    Some (JObj [("tables",
                 JArr (map (fun table =>
                              JObj [("table_name", JStr (full_table_id table));
                                    ("schema", JArr (api_repr (full_table_id table)))])
                           listing))]) /\
  forall listing' api_repr',
    get_schema_text listing api_repr = get_schema_text listing' api_repr' ->
    map full_table_id listing = map full_table_id listing' /\
    map (fun table => api_repr (full_table_id table)) listing =
      map (fun table => api_repr' (full_table_id table)) listing'.
Proof.
  split; [apply json_loads_value_dumps_indent|].
  intros listing' api_repr' Htext.
  assert (Hvalue : get_schema_tables listing api_repr = get_schema_tables listing' api_repr').
  { pose proof (json_loads_value_dumps_indent (get_schema_tables listing api_repr)) as H1.
    pose proof (json_loads_value_dumps_indent (get_schema_tables listing' api_repr')) as H2.
    unfold get_schema_text in Htext. rewrite Htext in H1. congruence. }
  unfold get_schema_tables in Hvalue. injection Hvalue as Hmap.
  clear Htext. revert listing' Hmap.
  induction listing as [|t l IH]; intros [|t' l'] Hmap; cbn [map] in *;
    try discriminate; [auto|].
  injection Hmap as Hid Hschema Hrest. destruct (IH l' Hrest) as [Hids Hschemas].
  split; congruence.
Qed.

End Workflow.

(** * Part III: the theorems at concrete collaborators *)

Local Abbreviation stub_stream llm :=
  (stream string stub_repr stub_repr stub_schema stub_rows llm stub_invalid).

(** ** The printed rows *)

Ltac norm_text :=
  repeat (rewrite append_assoc || rewrite append_cons || rewrite append_nil_l).

Lemma fold_left_join (sep : string) (l : list string) (acc : string) :
  fold_left (fun acc y => acc +:+ sep +:+ y) l acc = acc +:+ join_tail sep l.
Proof.
  revert acc. induction l as [|y ys IH]; intros acc; cbn [fold_left join_tail].
  - now rewrite append_nil_r.
  - rewrite IH. now rewrite !append_assoc.
Qed.

Lemma join_cons (sep x : string) (xs : list string) :
  join sep (x :: xs) = x +:+ join_tail sep xs.
Proof. cbn [join]. apply fold_left_join. Qed.

(** ** Strings *)

Lemma read_str_body_repr_char (quote c : ascii) (rest : string) :
  quote = squote \/ quote = dquote ->
  read_str_body quote (repr_char quote c +:+ rest) =
  decoded c (read_str_body quote rest).
Proof.
  intros [-> | ->]; destruct c as [[] [] [] [] [] [] [] []]; reflexivity.
Qed.

Lemma read_str_body_repr_chars (quote : ascii) (s rest : string) :
  quote = squote \/ quote = dquote ->
  read_str_body quote (repr_chars quote s +:+ String quote rest) = Some (s, rest).
Proof.
  intros Hq. induction s as [|c s IH]; cbn [repr_chars].
  - rewrite append_nil_l. cbn [read_str_body]. now rewrite Ascii.eqb_refl.
  - rewrite append_assoc, read_str_body_repr_char, IH by exact Hq. reflexivity.
Qed.

Lemma repr_quote_cases (s : string) : repr_quote s = squote \/ repr_quote s = dquote.
Proof. unfold repr_quote. destruct (_ && _); auto. Qed.

Lemma read_str_repr_str (s rest : string) :
  read_str (repr_str s +:+ rest) = Some (s, rest).
Proof.
  unfold repr_str. cbn zeta.
  pose proof (repr_quote_cases s) as Hq.
  rewrite append_cons, append_assoc, append_cons, append_nil_l.
  cbn [read_str].
  replace (Ascii.eqb (repr_quote s) squote || Ascii.eqb (repr_quote s) dquote) with true
    by (destruct Hq as [-> | ->]; reflexivity).
  now apply read_str_body_repr_chars.
Qed.

(** ** Integers *)

Lemma all_digits_app (s t : string) :
  all_digits (s +:+ t) = all_digits s && all_digits t.
Proof.
  induction s as [|c s IH]; [reflexivity|].
  rewrite append_cons. cbn [all_digits]. rewrite IH. apply andb_assoc.
Qed.

Lemma digits_value_app (s t : string) (acc : N) :
  digits_value (s +:+ t) acc = digits_value t (digits_value s acc).
Proof.
  revert acc. induction s as [|c s IH]; intros acc; [reflexivity|].
  rewrite append_cons. cbn [digits_value]. apply IH.
Qed.

Lemma read_digits_app (d rest : string) (acc : N) :
  all_digits d = true ->
  starts_with_digit rest = false ->
  read_digits (d +:+ rest) acc = (digits_value d acc, rest).
Proof.
  intros Hd Hrest. revert acc. induction d as [|c d IH]; intros acc.
  - rewrite append_nil_l. cbn [digits_value].
    destruct rest as [|c rest]; [reflexivity|].
    cbn [read_digits]. cbn [starts_with_digit] in Hrest. unfold is_digit in Hrest.
    now destruct (digit_value c).
  - rewrite append_cons. cbn [read_digits digits_value].
    cbn [all_digits] in Hd. apply andb_true_iff in Hd as [Hc Hd].
    unfold is_digit in Hc.
    destruct (digit_value c) as [n|]; [|discriminate].
    now apply IH.
Qed.

Lemma pretty_N_char_digit (x : N) :
  (x < 10)%N -> digit_value (pretty_N_char x) = Some x.
Proof.
  intros Hx.
  assert (x = 0 \/ x = 1 \/ x = 2 \/ x = 3 \/ x = 4 \/ x = 5 \/ x = 6 \/
          x = 7 \/ x = 8 \/ x = 9)%N as H by lia.
  repeat (destruct H as [-> | H]; [reflexivity|]). now subst.
Qed.

(** The digits [pretty_N_go] puts in front of its accumulator. *)
Lemma pretty_N_go_digits (x : N) :
  exists d, all_digits d = true /\ digits_value d 0 = x /\
            (x <> 0%N -> d <> "") /\
            forall s, pretty_N_go x s = d +:+ s.
Proof.
  induction (N.lt_wf_0 x) as [x _ IH].
  destruct (N.eq_dec x 0%N) as [-> | Hx].
  - exists "". repeat split; try reflexivity. intros H. now contradict H.
  - assert (Hpos : (0 < x)%N) by lia.
    destruct (IH (x / 10)%N) as (d & Hd & Hv & _ & Hgo).
    { apply N.div_lt; lia. }
    pose proof (pretty_N_char_digit (x mod 10) (N.mod_lt x 10 ltac:(lia))) as Hc.
    exists (d +:+ String (pretty_N_char (x mod 10)) "").
    split; [|split; [|split]].
    + rewrite all_digits_app, Hd. cbn [all_digits]. unfold is_digit. now rewrite Hc.
    + rewrite digits_value_app, Hv. cbn [digits_value]. rewrite Hc.
      pose proof (N.div_mod x 10 ltac:(lia)). lia.
    + intros _. destruct d; discriminate.
    + intros s. rewrite pretty_N_go_step, Hgo by exact Hpos.
      now rewrite append_assoc, append_cons, append_nil_l.
Qed.

Lemma pretty_N_digits (x : N) :
  exists c d, all_digits (String c d) = true /\ digits_value (String c d) 0 = x /\
              pretty x = String c d.
Proof.
  unfold pretty, pretty_N. destruct (decide (x = 0%N)) as [-> | Hx].
  - exists "0"%char, "". repeat split.
  - destruct (pretty_N_go_digits x) as (d & Hd & Hv & Hne & Hgo).
    destruct d as [|c d]; [now destruct (Hne Hx)|].
    exists c, d. rewrite Hgo, append_nil_r. auto.
Qed.

Lemma read_int_pretty (z : Z) (rest : string) :
  starts_with_digit rest = false ->
  read_int (pretty z +:+ rest) = Some (z, rest).
Proof.
  intros Hrest.
  assert (Hnat : forall x : N,
            read_int (pretty x +:+ rest) = Some (Z.of_N x, rest) /\
            read_int ("-" +:+ pretty x +:+ rest) = Some (Z.opp (Z.of_N x), rest)).
  { intros x. destruct (pretty_N_digits x) as (c & d & Hd & Hv & ->).
    pose proof (read_digits_app (String c d) rest 0 Hd Hrest) as Hread.
    rewrite Hv in Hread. rewrite append_cons in Hread.
    assert (Hc : exists n, digit_value c = Some n).
    { cbn [all_digits] in Hd. unfold is_digit in Hd.
      destruct (digit_value c); [eauto|discriminate]. }
    destruct Hc as [n Hc].
    assert (Hminus : Ascii.eqb c "-"%char = false).
    { destruct (Ascii.eqb_spec c "-"%char) as [-> |]; [discriminate|reflexivity]. }
    split.
    - rewrite append_cons. cbn [read_int]. rewrite Hminus, Hc, Hread. reflexivity.
    - rewrite !append_cons, append_nil_l. cbn [read_int].
      rewrite Ascii.eqb_refl, Hc, Hread. reflexivity. }
  destruct z as [|p|p].
  - exact (proj1 (Hnat 0%N)).
  - exact (proj1 (Hnat (Npos p))).
  - exact (proj2 (Hnat (Npos p))).
Qed.

(** ** Cells, items, dicts and rows *)

Lemma pretty_Z_head (z : Z) :
  exists c d, pretty z = String c d /\ (is_digit c = true \/ c = "-"%char).
Proof.
  assert (Hnat : forall x : N, exists c d, pretty x = String c d /\ is_digit c = true).
  { intros x. destruct (pretty_N_digits x) as (c & d & Hd & _ & ->).
    exists c, d. split; [reflexivity|].
    cbn [all_digits] in Hd. now apply andb_true_iff in Hd as [Hc _]. }
  destruct z as [|p|p].
  - exists "0"%char, "". auto.
  - destruct (Hnat (Npos p)) as (c & d & Hp & Hc). exists c, d. auto.
  - exists "-"%char, (pretty (Npos p)). split; [|now right].
    change (pretty (Z.neg p)) with ("-" +:+ pretty (Npos p)).
    now rewrite append_cons, append_nil_l.
Qed.

Lemma read_value_int_head (c : ascii) (s : string) :
  is_digit c = true \/ c = "-"%char ->
  read_value (String c s) =
  match read_int (String c s) with
  | Some (z, rest) => Some (VInt z, rest)
  | None => None
  end.
Proof.
  intros [Hc | ->]; [|reflexivity].
  destruct c as [[] [] [] [] [] [] [] []]; try discriminate Hc; reflexivity.
Qed.

Lemma read_value_repr_value (v : PyValue) (rest : string) :
  starts_with_digit rest = false ->
  read_value (repr_value v +:+ rest) = Some (v, rest).
Proof.
  intros Hrest. destruct v as [|[]|z|s]; cbn [repr_value]; try reflexivity.
  - pose proof (read_int_pretty z rest Hrest) as Hint.
    destruct (pretty_Z_head z) as (c & d & Hz & Hc).
    rewrite Hz, append_cons in *.
    now rewrite (read_value_int_head c _ Hc), Hint.
  - pose proof (read_str_repr_str s rest) as Hstr.
    unfold repr_str in *. cbn zeta in *. rewrite append_cons in *.
    destruct (repr_quote_cases s) as [Hq | Hq]; rewrite Hq in *;
      cbn [read_value]; cbn [Ascii.eqb squote dquote Bool.eqb orb]; now rewrite Hstr.
Qed.

Lemma read_item_repr (k : string) (v : PyValue) (rest : string) :
  starts_with_digit rest = false ->
  read_item (repr_str k +:+ String ":" (String " " (repr_value v +:+ rest))) =
  Some ((k, v), rest).
Proof.
  intros Hrest. unfold read_item. rewrite read_str_repr_str.
  cbn [strip_prefix]. cbn [Ascii.eqb Bool.eqb].
  now rewrite read_value_repr_value.
Qed.

Lemma starts_with_digit_join_tail (l : list string) (c : ascii) (rest : string) :
  is_digit c = false ->
  starts_with_digit (join_tail ", " l +:+ String c rest) = false.
Proof.
  intros Hc. destruct l as [|x l]; cbn [join_tail]; norm_text; [exact Hc|reflexivity].
Qed.

Lemma read_items_tail_repr (items : list (string * PyValue)) (rest : string) (fuel : nat) :
  String.length (join_tail ", " (map item_text items) +:+ String "}" rest) <= fuel ->
  read_items_tail fuel (join_tail ", " (map item_text items) +:+ String "}" rest) =
  Some (items, rest).
Proof.
  revert fuel. induction items as [|[k v] items IH]; intros fuel Hfuel;
    cbn [map join_tail] in *.
  - rewrite append_nil_l in *. cbn [String.length] in Hfuel.
    destruct fuel as [|fuel]; [lia|]. reflexivity.
  - unfold item_text at 1 in Hfuel. unfold item_text at 1. cbn [fst snd] in *.
    revert Hfuel. norm_text. intros Hfuel.
    cbn [String.length] in Hfuel. rewrite length_append in Hfuel.
    cbn [String.length] in Hfuel. rewrite length_append in Hfuel.
    destruct fuel as [|fuel]; [lia|].
    cbn [read_items_tail strip_prefix]. cbn [Ascii.eqb Bool.eqb].
    rewrite read_item_repr by (now apply starts_with_digit_join_tail).
    rewrite IH by lia. reflexivity.
Qed.

Lemma read_dict_items (fuel : nat) (c : ascii) (s : string) :
  Ascii.eqb c "}"%char = false ->
  read_dict fuel (String "{" (String c s)) =
  match read_item (String c s) with
  | None => None
  | Some (kv, r1) =>
      match read_items_tail fuel r1 with
      | Some (items, r2) => Some (kv :: items, r2)
      | None => None
      end
  end.
Proof. intros Hc. cbn [read_dict]. cbn [Ascii.eqb Bool.eqb]. now rewrite Hc. Qed.

Lemma repr_str_head (s rest : string) :
  exists c r, repr_str s +:+ rest = String c r /\ Ascii.eqb c "}"%char = false.
Proof.
  unfold repr_str. cbn zeta. rewrite append_cons.
  exists (repr_quote s). eexists. split; [reflexivity|].
  now destruct (repr_quote_cases s) as [-> | ->].
Qed.

Local Abbreviation py_str_dict := (str_dict PyValue repr_value repr_str).
Local Abbreviation py_str_rows := (str_rows PyValue repr_value repr_str).

Lemma str_dict_cons (kv : string * PyValue) (items : list (string * PyValue))
    (rest : string) :
  py_str_dict (kv :: items) +:+ rest =
  String "{" (repr_str (fst kv) +:+ String ":" (String " " (repr_value (snd kv) +:+
    (join_tail ", " (map item_text items) +:+ String "}" rest)))).
Proof.
  unfold str_dict. cbn [map]. rewrite join_cons. norm_text. reflexivity.
Qed.

Lemma read_dict_str_dict (d : list (string * PyValue)) (rest : string) (fuel : nat) :
  String.length (py_str_dict d +:+ rest) <= fuel ->
  read_dict fuel (py_str_dict d +:+ rest) = Some (d, rest).
Proof.
  destruct d as [|[k v] items]; [reflexivity|].
  rewrite str_dict_cons. cbn [fst snd]. intros Hfuel.
  destruct (repr_str_head k (String ":" (String " " (repr_value v +:+
              (join_tail ", " (map item_text items) +:+ String "}" rest)))))
    as (c & r & Hhead & Hc).
  rewrite Hhead, (read_dict_items fuel c r Hc), <- Hhead.
  rewrite read_item_repr by (now apply starts_with_digit_join_tail).
  rewrite read_items_tail_repr; [reflexivity|].
  cbn [String.length] in Hfuel. rewrite length_append in Hfuel.
  cbn [String.length] in Hfuel. rewrite length_append in Hfuel. lia.
Qed.

Lemma str_dict_head (d : list (string * PyValue)) (rest : string) :
  exists r, py_str_dict d +:+ rest = String "{" r.
Proof.
  unfold str_dict. norm_text. eauto.
Qed.

Lemma read_rows_tail_repr (ds : list (list (string * PyValue))) (rest : string)
    (fuel : nat) :
  String.length (join_tail ", " (map py_str_dict ds) +:+ String "]" rest) <= fuel ->
  read_rows_tail fuel (join_tail ", " (map py_str_dict ds) +:+ String "]" rest) =
  Some (ds, rest).
Proof.
  revert fuel. induction ds as [|d ds IH]; intros fuel Hfuel; cbn [map join_tail] in *.
  - rewrite append_nil_l in *. cbn [String.length] in Hfuel.
    destruct fuel as [|fuel]; [lia|]. reflexivity.
  - revert Hfuel. rewrite !append_assoc, !append_cons, append_nil_l. intros Hfuel.
    cbn [String.length] in Hfuel. rewrite length_append in Hfuel.
    destruct fuel as [|fuel]; [lia|].
    cbn [read_rows_tail strip_prefix]. cbn [Ascii.eqb Bool.eqb].
    rewrite read_dict_str_dict by (rewrite length_append; lia).
    rewrite IH by lia. reflexivity.
Qed.

(** Reading the printed form of a list of rows gives the rows back. *)
Lemma read_rows_cons_form (c : ascii) (s : string) :
  Ascii.eqb c "]"%char = false ->
  read_rows (String "[" (String c s)) =
  match read_dict (S (S (String.length s))) (String c s) with
  | None => None
  | Some (d, r1) =>
      match read_rows_tail (S (S (String.length s))) r1 with
      | Some (ds, EmptyString) => Some (d :: ds)
      | _ => None
      end
  end.
Proof. intros Hc. cbn [read_rows String.length]. cbn [Ascii.eqb Bool.eqb]. now rewrite Hc. Qed.

Lemma read_rows_str_rows (rows : list (list (string * PyValue))) :
  read_rows (py_str_rows rows) = Some rows.
Proof.
  destruct rows as [|d ds]; [reflexivity|].
  unfold str_rows. cbn [map]. rewrite join_cons.
  rewrite !append_assoc, append_cons, append_nil_l.
  destruct (str_dict_head d (join_tail ", " (map py_str_dict ds) +:+ "]")) as [r Hr].
  rewrite Hr, read_rows_cons_form by reflexivity.
  assert (Hlen : String.length (py_str_dict d +:+ join_tail ", " (map py_str_dict ds) +:+ "]")
                 = S (String.length r)) by now rewrite Hr.
  rewrite <- Hr.
  rewrite length_append in Hlen.
  rewrite read_dict_str_dict by (rewrite length_append; lia).
  rewrite read_rows_tail_repr by lia. reflexivity.
Qed.


Lemma get_state_execute_sql_iff_witness :
  exists last_message,
    last (messages state_query) = Some last_message /\
    requests_query_tool last_message /\
    get_state state_query = Some "execute_sql".
Proof.
  destruct (get_state_execute_sql_iff state_query) as (m & Hlast & Hiff & _).
  - discriminate.
  - exists m. split; [exact Hlast|].
    assert (Hroute : get_state state_query = Some "execute_sql") by reflexivity.
    split; [apply Hiff, Hroute|exact Hroute].
Defined.

Lemma get_state_last_message_only_witness :
  get_state state_query = get_state state_query_other.
Proof. apply get_state_last_message_only. reflexivity. Defined.

(** C6, the claim as stated fails: in an environment where the
    constructor of the client raises, a call of the tool raises, whatever
    the backend would have answered, and the exception is not turned into
    an error payload. *)
Example execute_query_tool_raises_without_client :
  execute_query_tool_call string stub_repr stub_repr stub_rows stub_client_fails
    "SELECT 1" world0 = ToolRaised "DefaultCredentialsError" world0 /\
  execute_query_tool_call string stub_repr stub_repr stub_failing stub_client_fails
    "SELECT nope FROM menu" world0 = ToolRaised "DefaultCredentialsError" world0.
Proof. split; reflexivity. Qed.

Lemma execute_query_tool_raises_only_from_client_witness :
  stub_client 0 = ClientBuilt /\
  stub_failing 0 "SELECT nope FROM menu" = QueryRaised "column not found" /\
  exists w',
    execute_query_tool_call string stub_repr stub_repr stub_failing stub_client
      "SELECT nope FROM menu" world0 =
    ToolReturned
      ("{" +:+ String dquote ("BigQuery error" +:+ String dquote (": " +:+
         String dquote ("BigQuery Error: column not found" +:+ String dquote "}"))))
      w' /\
    queries_run w' = ["SELECT nope FROM menu"].
Proof.
  split; [reflexivity|]. split; [reflexivity|].
  destruct (execute_query_tool_raises_only_from_client string stub_repr stub_repr stub_schema
              stub_failing stub_llm_text stub_invalid stub_client
              "SELECT nope FROM menu" world0)
    as (_ & Hbuilt).
  destruct (Hbuilt eq_refl) as (payload & w' & Hcall & Hrun & Hraised).
  destruct (Hraised "column not found" eq_refl) as (_ & Htext & _).
  exists w'. split; [|exact Hrun].
  rewrite Hcall, Htext. reflexivity.
Defined.


Lemma messages_append_only_witness :
  messages (apply_update state_query
              (fst (tool_node string stub_repr stub_repr stub_rows stub_invalid
                      state_query world0))) =
  (messages state_query
     ++ [ToolMessage (String dquote ("[{price: 12}]" +:+ String dquote ""))
                     "execute_query_tool" "call"])%list /\
  messages state_query `prefix_of`
  messages (apply_update state_query
              (fst (tool_node string stub_repr stub_repr stub_rows stub_invalid
                      state_query world0))).
Proof.
  split; [reflexivity|].
  eapply (messages_append_only string stub_repr stub_repr stub_schema stub_rows
            stub_llm_text stub_invalid N_execute_sql state_query world0).
  reflexivity.
Defined.

Lemma stub_llm_query_requests (k : nat) (prompt : list Message) :
  requests_query_tool (stub_llm_query k prompt).
Proof.
  exists "", [query_call "SELECT 1" "call"], (query_call "SELECT 1" "call").
  split; [reflexivity|]. split; [now left|reflexivity].
Qed.

Lemma recursion_limit_enforced_witness :
  outcome (fst (stub_stream stub_llm_query config [HumanMessage "hello"] ∅ world0)) =
    RecursionLimitExceeded /\
  length (steps (fst (stub_stream stub_llm_query config [HumanMessage "hello"] ∅ world0))) =
    20.
Proof.
  destruct (recursion_limit_enforced string stub_repr stub_repr stub_schema stub_rows
              stub_llm_query stub_invalid config [HumanMessage "hello"] ∅ world0
              stub_llm_query_requests)
    as (Ho & Hl & _).
  split; [exact Ho|exact Hl].
Defined.

Lemma submit_without_query_terminates_witness :
  get_state state_submit = Some END /\
  next_target N_data_chatbot state_submit = Some Finish.
Proof.
  destruct (submit_without_query_terminates string stub_repr stub_repr stub_schema
              stub_rows stub_llm_submit stub_invalid state_submit
              (AIMessage "" [submit_call "12" "call"]))
    as (Hroute & Hnext & _).
  - reflexivity.
  - exists (submit_call "12" "call"). split; [now left|reflexivity].
  - intros (c & tcs & tc & Heq & Hin & Hname).
    injection Heq as _ <-. destruct Hin as [<-|[]]. discriminate.
  - split; [exact Hroute|exact Hnext].
Defined.

Lemma schema_fetched_at_most_once_witness :
  metadata_calls (snd (chat_loop string stub_repr stub_repr stub_schema stub_rows
                         stub_llm_text stub_invalid config
                         ["first question"; "second question"; "q"] ∅ world0)) <= 1.
Proof.
  destruct (schema_fetched_at_most_once string stub_repr stub_repr stub_schema stub_rows
              stub_llm_text stub_invalid config
              ["first question"; "second question"; "q"] ∅ world0)
    as (_ & _ & Hcalls & _).
  exact Hcalls.
Defined.

Lemma get_schema_node_appends_one_note_witness :
  upd_messages (fst (get_schema_node stub_schema state_submit world0)) =
    Some [AIMessage "Schema retrieved from memory" []] /\
  upd_messages (fst (get_schema_node stub_schema state_query world0)) =
    Some [AIMessage "Schema retrieved from BigQuery" []].
Proof.
  split.
  - exact (proj1 (get_schema_node_appends_one_note string stub_repr stub_repr stub_schema
                    stub_rows stub_llm_text stub_invalid state_submit world0)).
  - exact (proj1 (get_schema_node_appends_one_note string stub_repr stub_repr stub_schema
                    stub_rows stub_llm_text stub_invalid state_query world0)).
Defined.

Lemma every_turn_enters_at_schema_node_witness :
  exists s1 rest,
    steps (fst (stub_stream stub_llm_text (mkConfig "101" 20)
                  [HumanMessage "second question"]
                  {[ "101" := state_submit ]} world0)) = (N_get_schema, s1) :: rest /\
    dataset_schema s1 = Some "tables: menu".
Proof.
  destruct (every_turn_enters_at_schema_node string stub_repr stub_repr stub_schema
              stub_rows stub_llm_text stub_invalid "101" 19
              [HumanMessage "second question"] {[ "101" := state_submit ]} world0)
    as (s1 & rest & Hsteps & _ & _ & Hcached).
  exists s1, rest. split; [exact Hsteps|].
  destruct (Hcached "tables: menu") as (_ & Hschema & _); [|exact Hschema].
  vm_compute. reflexivity.
Defined.

Lemma stub_llm_text_answers (k : nat) (prompt : list Message) :
  isinstance_AIMessage (stub_llm_text k prompt) = true.
Proof. reflexivity. Qed.

Lemma chat_loop_records_inputs_witness :
  let users := ["first"; "second"; "q"; "ignored"] in
  let loop := chat_loop string stub_repr stub_repr stub_schema stub_rows in
  let loop_outcome := chat_loop_outcome string stub_repr stub_repr stub_schema stub_rows in
  let humans llm :=
    List.filter isinstance_HumanMessage
      (messages (loaded_state config (fst (loop llm stub_invalid config users ∅ world0)))) in
  (exists sent later,
     inputs_before_quit users = (sent ++ later)%list /\
     humans stub_llm_query =
     (List.filter isinstance_HumanMessage (messages (loaded_state config ∅))
        ++ map HumanMessage sent)%list /\
     match loop_outcome stub_llm_query stub_invalid config users ∅ world0 with
     | Done => later = []
     | raised =>
         exists earlier user memory0 w0,
           sent = (earlier ++ [user])%list /\
           let r := stub_stream stub_llm_query config [HumanMessage user] memory0 w0 in
           outcome (fst r) = raised /\
           loop stub_llm_query stub_invalid config users ∅ world0 =
             (snd r, world_after (fst r))
     end) /\
  loop_outcome stub_llm_query stub_invalid config users ∅ world0 = RecursionLimitExceeded /\
  humans stub_llm_query = [HumanMessage "first"] /\
  loop_outcome stub_llm_text stub_invalid config users ∅ world0 = Done /\
  humans stub_llm_text = [HumanMessage "first"; HumanMessage "second"].
Proof.
  cbn zeta. split.
  - apply (chat_loop_records_inputs string stub_repr stub_repr stub_schema stub_rows
             stub_llm_query stub_invalid config ["first"; "second"; "q"; "ignored"]
             ∅ world0 (fun _ _ => eq_refl)).
    discriminate.
  - repeat split; vm_compute; reflexivity.
Defined.

Lemma schema_cache_is_first_fetch_witness :
  cached_schema config
    (fst (chat_loop string stub_repr stub_repr stub_schema_text stub_rows stub_llm_text
            stub_invalid config ["first"; "second"] ∅ world0)) =
  Some (get_schema_text stub_listing stub_api_repr).
Proof.
  destruct (schema_cache_is_first_fetch string stub_repr stub_repr stub_schema_text
              stub_rows stub_llm_text stub_invalid config "first" ["second"] ∅ world0)
    as [Hcached _].
  - reflexivity.
  - discriminate.
  - reflexivity.
  - exact Hcached.
Defined.

Lemma stream_adds_assistant_and_tool_messages_witness :
  exists added,
    messages (final_state (fst (stub_stream stub_llm_text config
                                  [HumanMessage "first"] ∅ world0))) =
      ([HumanMessage "first"] ++ added)%list /\
    Forall (fun m => assistant_or_tool m = true) added.
Proof.
  exact (stream_adds_assistant_and_tool_messages string stub_repr stub_repr stub_schema
           stub_rows stub_llm_text stub_invalid config [HumanMessage "first"] ∅ world0
           stub_llm_text_answers).
Defined.

(** C2, the claim as stated fails: a last message that invokes
    [SubmitFinalAnswer] together with the query tool is routed to the tool
    node, and a run whose model sends that message executes the tool node
    after it. *)
Lemma submit_with_query_routes_to_tools :
  last (messages state_submit_and_query) = Some message_submit_and_query /\
  invokes_submit message_submit_and_query /\
  get_state state_submit_and_query = Some "execute_sql" /\
  get_state state_submit_and_query <> Some END /\
  trace (fst (stub_stream stub_llm_both config
                [HumanMessage "which is the most expensive item on the menu?"] ∅ world0)) =
    [N_get_schema; N_data_chatbot; N_execute_sql; N_data_chatbot].
Proof.
  split; [reflexivity|]. split.
  { exists (submit_call "12" "call_a"). split; [now left|reflexivity]. }
  split; [reflexivity|]. split; [discriminate|]. vm_compute. reflexivity.
Qed.

(** C7, the claim as stated fails: on a thread that has completed a turn
    and holds its schema, the next turn starts at the schema node again
    and reaches the reasoning node second. *)
Lemma second_turn_runs_schema_node :
  let first := stub_stream stub_llm_text config [HumanMessage "first question"] ∅ world0 in
  let second := stub_stream stub_llm_text config [HumanMessage "second question"]
                  (snd first) (world_after (fst first)) in
  outcome (fst first) = Done /\
  cached_schema config (snd first) = Some "tables: menu" /\
  trace (fst second) = [N_get_schema; N_data_chatbot] /\
  head (trace (fst second)) <> Some N_data_chatbot.
Proof.
  vm_compute. repeat split; discriminate.
Qed.
